(** * EternityX notebook client: stream assembler and presentation player

    A shallow embedding of the two pieces of client logic that carry
    behaviour of their own:

    - the server-sent-event read loop of [handleSend]
      (src/components/notebook/ChatPanel.tsx) and [handleAction]
      (src/components/notebook/StudioPanel.tsx), together with the
      request-failure branches that precede it;
    - the [VideoPlayer] component
      (src/components/notebook/VideoPlayer.tsx): its React state, its refs,
      its timers and the callbacks of the speech utterance.

    JavaScript strings are sequences of UTF-16 code units; they are modelled
    as [list N].  The [TextDecoder] of the read loop is used in streaming
    mode, so the decoded pieces concatenate to the decoded stream: a chunk
    is modelled as the piece of text it decodes to.  Numbers that the code
    treats as floats ([slideProgress], the estimated duration) are modelled
    as rationals. *)

From Stdlib Require Import List Bool Arith NArith ZArith QArith Qminmax Lia.
From Stdlib Require Import Ascii String.
Import ListNotations.

Set Warnings "-register-all".

(** ** JavaScript strings *)

Module JS.

Definition text := list N.

(** A string literal of the source, as code units. *)
Definition lit (s : string) : text :=
  List.map N_of_ascii (list_ascii_of_string s).

Arguments lit s%_string.

Definition LF : N := 10.
Definition CR : N := 13.

Definition text_eqb (a b : text) : bool :=
  if list_eq_dec N.eq_dec a b then true else false.

(** [s.indexOf(c)] for a one-unit needle; [None] stands for -1. *)
Fixpoint indexOf (c : N) (s : text) : option nat :=
  match s with
  | [] => None
  | x :: r => if N.eqb x c then Some O
              else match indexOf c r with
                   | Some n => Some (S n)
                   | None => None
                   end
  end.

(** [s.slice(0, n)] and [s.slice(n)] for [0 <= n]. *)
Definition slice_to (n : nat) (s : text) : text := firstn n s.
Definition slice_from (n : nat) (s : text) : text := skipn n s.

(** [s.startsWith(p)] *)
Fixpoint startsWith (p s : text) : bool :=
  match p, s with
  | [], _ => true
  | _ :: _, [] => false
  | a :: p', b :: s' => N.eqb a b && startsWith p' s'
  end.

(** [s.endsWith(c)] for a one-unit suffix. *)
Definition endsWith1 (c : N) (s : text) : bool :=
  match rev s with
  | x :: _ => N.eqb x c
  | [] => false
  end.

(** [s.slice(0, -1)] *)
Definition drop_last (s : text) : text := removelast s.

(** WhiteSpace and LineTerminator code points of ECMAScript: what
    [String.prototype.trim] strips and what the regular expression class
    [\s] matches. *)
Definition isWhite (c : N) : bool :=
  (N.eqb c 9 || N.eqb c 10 || N.eqb c 11 || N.eqb c 12 || N.eqb c 13
   || N.eqb c 32 || N.eqb c 160 || N.eqb c 5760
   || (N.leb 8192 c && N.leb c 8202)
   || N.eqb c 8232 || N.eqb c 8233 || N.eqb c 8239 || N.eqb c 8287
   || N.eqb c 12288 || N.eqb c 65279)%bool.

Fixpoint trimStart (s : text) : text :=
  match s with
  | [] => []
  | c :: r => if isWhite c then trimStart r else s
  end.

Definition trimEnd (s : text) : text := rev (trimStart (rev s)).

Definition trim (s : text) : text := trimEnd (trimStart s).

(** Decimal digits of a natural number, most significant first. *)
Fixpoint digits_fuel (fuel : nat) (n : N) (acc : text) : text :=
  match fuel with
  | O => acc
  | S f =>
      let acc' := (48 + N.modulo n 10)%N :: acc in
      if N.ltb n 10 then acc' else digits_fuel f (N.div n 10) acc'
  end.

Definition digits (n : N) : text := digits_fuel (S (N.to_nat (N.log2 n))) n [].

(** [text.split(/\s+/).length]: one more than the number of maximal runs
    of white space. *)
Fixpoint count_runs (inRun : bool) (s : text) : nat :=
  match s with
  | [] => O
  | c :: r =>
      if isWhite c
      then (if inRun then count_runs true r else S (count_runs true r))
      else count_runs false r
  end.

Definition split_ws_length (s : text) : nat := S (count_runs false s).

End JS.

Import JS.

(** ** JSON values, [JSON.parse] and the conversions the code applies

    [JSON.parse] and the conversions [ToBoolean] / [ToString] are part of
    the language, not of the repository; they are written out following
    ECMA-262 so that every definition below can be evaluated. *)

Module JSON.

(** A JSON number literal denotes [(-1)^neg * mant * 10^expo] exactly. *)
Record decimal := Decimal { neg : bool; mant : N; expo : Z }.

Inductive value :=
| JNull
| JBool (b : bool)
| JNumber (d : decimal)
| JString (s : text)
| JArray (l : list value)
| JObject (members : list (text * value)).

(** *** Parsing *)

Definition is_ws (c : N) : bool :=
  (N.eqb c 9 || N.eqb c 10 || N.eqb c 13 || N.eqb c 32)%bool.

Fixpoint skip_ws (s : text) : text :=
  match s with
  | [] => []
  | c :: r => if is_ws c then skip_ws r else s
  end.

Definition is_digit (c : N) : bool := (N.leb 48 c && N.leb c 57)%bool.

Definition hex_val (c : N) : option N :=
  if (N.leb 48 c && N.leb c 57)%bool then Some (c - 48)%N
  else if (N.leb 65 c && N.leb c 70)%bool then Some (c - 55)%N
  else if (N.leb 97 c && N.leb c 102)%bool then Some (c - 87)%N
  else None.

Definition hex4 (a b c d : N) : option N :=
  match hex_val a, hex_val b, hex_val c, hex_val d with
  | Some x, Some y, Some z, Some w => Some (((x * 16 + y) * 16 + z) * 16 + w)%N
  | _, _, _, _ => None
  end.

(** The single-character escapes of a JSON string. *)
Definition simple_escape (e : N) : option N :=
  if N.eqb e 34 then Some 34%N          (* quotation mark *)
  else if N.eqb e 92 then Some 92%N     (* backslash *)
  else if N.eqb e 47 then Some 47%N     (* solidus *)
  else if N.eqb e 98 then Some 8%N      (* b: backspace *)
  else if N.eqb e 102 then Some 12%N    (* f: form feed *)
  else if N.eqb e 110 then Some 10%N    (* n: line feed *)
  else if N.eqb e 114 then Some 13%N    (* r: carriage return *)
  else if N.eqb e 116 then Some 9%N     (* t: tab *)
  else None.

(** The characters of a string after its opening quote, up to and
    including the closing quote. *)
Fixpoint parse_string_body (s : text) : option (text * text) :=
  match s with
  | [] => None
  | c :: r =>
      if N.eqb c 34 then Some ([], r)
      else if N.eqb c 92 then
        match r with
        | [] => None
        | e :: r1 =>
            if N.eqb e 117 then
              match r1 with
              | h1 :: h2 :: h3 :: h4 :: r2 =>
                  match hex4 h1 h2 h3 h4 with
                  | Some u =>
                      match parse_string_body r2 with
                      | Some (t, rest) => Some (u :: t, rest)
                      | None => None
                      end
                  | None => None
                  end
              | _ => None
              end
            else
              match simple_escape e with
              | Some u =>
                  match parse_string_body r1 with
                  | Some (t, rest) => Some (u :: t, rest)
                  | None => None
                  end
              | None => None
              end
        end
      else if N.ltb c 32 then None
      else
        match parse_string_body r with
        | Some (t, rest) => Some (c :: t, rest)
        | None => None
        end
  end.

(** A maximal run of digits: its value continued from [acc], its length,
    and the rest of the input. *)
Fixpoint take_digits (s : text) (acc : N) (len : nat) : N * nat * text :=
  match s with
  | c :: r =>
      if is_digit c then take_digits r (acc * 10 + (c - 48))%N (S len)
      else (acc, len, s)
  | [] => (acc, len, [])
  end.

(** The integer part: a single [0], or a run of digits not starting
    with [0]. *)
Definition parse_int (s : text) : option (N * text) :=
  match s with
  | c :: r =>
      if N.eqb c 48 then Some (0%N, r)
      else if is_digit c then
        let '(n, _, rest) := take_digits s 0%N O in Some (n, rest)
      else None
  | [] => None
  end.

Definition parse_frac (m : N) (s : text) : option (N * nat * text) :=
  match s with
  | c :: r =>
      if N.eqb c 46 then
        let '(n, len, rest) := take_digits r m O in
        match len with
        | O => None
        | S _ => Some (n, len, rest)
        end
      else Some (m, O, s)
  | [] => Some (m, O, [])
  end.

Definition parse_exp (s : text) : option (Z * text) :=
  match s with
  | c :: r =>
      if (N.eqb c 101 || N.eqb c 69)%bool then
        let '(sgn, r1) :=
          match r with
          | x :: r' => if N.eqb x 45 then (true, r')
                       else if N.eqb x 43 then (false, r') else (false, r)
          | [] => (false, r)
          end in
        let '(n, len, rest) := take_digits r1 0%N O in
        match len with
        | O => None
        | S _ => Some (if sgn then (- Z.of_N n)%Z else Z.of_N n, rest)
        end
      else Some (0%Z, s)
  | [] => Some (0%Z, [])
  end.

Definition parse_number (s : text) : option (decimal * text) :=
  let '(sg, s1) :=
    match s with
    | c :: r => if N.eqb c 45 then (true, r) else (false, s)
    | [] => (false, s)
    end in
  match parse_int s1 with
  | None => None
  | Some (i, s2) =>
      match parse_frac i s2 with
      | None => None
      | Some (m, flen, s3) =>
          match parse_exp s3 with
          | None => None
          | Some (e, s4) => Some (Decimal sg m (e - Z.of_nat flen), s4)
          end
      end
  end.

Definition expect (word : text) (v : value) (s : text) : option (value * text) :=
  if startsWith word s then Some (v, skipn (List.length word) s) else None.

(** Values, array elements and object members.  Every call consumes
    input before it recurses twice, so [2 * length s + 2] units of fuel
    are never used up. *)
Fixpoint parse_value (fuel : nat) (s : text) : option (value * text) :=
  match fuel with
  | O => None
  | S f =>
      match skip_ws s with
      | [] => None
      | c :: r =>
          if N.eqb c 123 then
            match skip_ws r with
            | x :: r' => if N.eqb x 125 then Some (JObject [], r')
                         else parse_members f (x :: r') []
            | [] => None
            end
          else if N.eqb c 91 then
            match skip_ws r with
            | x :: r' => if N.eqb x 93 then Some (JArray [], r')
                         else parse_elements f (x :: r') []
            | [] => None
            end
          else if N.eqb c 34 then
            match parse_string_body r with
            | Some (t, rest) => Some (JString t, rest)
            | None => None
            end
          else if N.eqb c 116 then expect (lit "true") (JBool true) (c :: r)
          else if N.eqb c 102 then expect (lit "false") (JBool false) (c :: r)
          else if N.eqb c 110 then expect (lit "null") JNull (c :: r)
          else
            match parse_number (c :: r) with
            | Some (d, rest) => Some (JNumber d, rest)
            | None => None
            end
      end
  end
with parse_elements (fuel : nat) (s : text) (acc : list value)
  : option (value * text) :=
  match fuel with
  | O => None
  | S f =>
      match parse_value f s with
      | None => None
      | Some (v, r) =>
          match skip_ws r with
          | x :: r' =>
              if N.eqb x 44 then parse_elements f r' (v :: acc)
              else if N.eqb x 93 then Some (JArray (rev (v :: acc)), r')
              else None
          | [] => None
          end
      end
  end
with parse_members (fuel : nat) (s : text) (acc : list (text * value))
  : option (value * text) :=
  match fuel with
  | O => None
  | S f =>
      match skip_ws s with
      | q :: r =>
          if N.eqb q 34 then
            match parse_string_body r with
            | None => None
            | Some (k, r1) =>
                match skip_ws r1 with
                | x :: r2 =>
                    if N.eqb x 58 then
                      match parse_value f r2 with
                      | None => None
                      | Some (v, r3) =>
                          match skip_ws r3 with
                          | y :: r4 =>
                              if N.eqb y 44
                              then parse_members f r4 ((k, v) :: acc)
                              else if N.eqb y 125
                              then Some (JObject (rev ((k, v) :: acc)), r4)
                              else None
                          | [] => None
                          end
                      end
                    else None
                | [] => None
                end
            end
          else None
      | [] => None
      end
  end.

(** [JSON.parse(s)]; [None] stands for the [SyntaxError] it throws. *)
Definition parse (s : text) : option value :=
  match parse_value (2 * List.length s + 2) s with
  | Some (v, rest) =>
      match skip_ws rest with
      | [] => Some v
      | _ :: _ => None
      end
  | None => None
  end.

(** *** Numbers

    A JSON number becomes the binary64 value nearest to it.  A positive
    binary64 value is kept as [Finite m e], standing for [m * 2^e] with
    [2^52 <= m < 2^53] and [-1074 <= e <= 971], or [m < 2^52] and
    [e = -1074]; a magnitude too large for the format is [Infinity]. *)

Inductive double := Finite (m e : Z) | Infinity.

Definition double_eqb (x y : double) : bool :=
  match x, y with
  | Finite m e, Finite m' e' => (Z.eqb m m' && Z.eqb e e')%bool
  | Infinity, Infinity => true
  | _, _ => false
  end.

Open Scope Z_scope.

(** [a / b] rounded to the nearest integer, ties to even ([0 < b]). *)
Definition rne (a b : Z) : Z :=
  let q := a / b in
  match 2 * (a mod b) ?= b with
  | Lt => q
  | Gt => q + 1
  | Eq => if Z.even q then q else q + 1
  end.

(** The fraction [p / (q * base^t)] for any sign of [t]. *)
Definition scaled (base p q t : Z) : Z * Z :=
  if 0 <=? t then (p, q * base ^ t) else (p * base ^ (- t), q).

(** The binary64 value nearest to [p / q], for [0 <= p] and [0 < q]. *)
Definition round_double (p q : Z) : double :=
  if p =? 0 then Finite 0 (-1074)
  else
    let l := Z.log2 p - Z.log2 q in
    let '(a0, b0) := scaled 2 p q l in
    let f := if b0 <=? a0 then l else l - 1 in
    let e := Z.max (f - 52) (-1074) in
    let '(a, b) := scaled 2 p q e in
    let m := rne a b in
    let '(m', e') := if m =? 2 ^ 53 then (2 ^ 52, e + 1) else (m, e) in
    if 971 <? e' then Infinity else Finite m' e'.

Definition to_double (d : decimal) : double :=
  let '(p, q) := scaled 10 (Z.of_N (mant d)) 1 (- expo d) in
  round_double p q.

(** [ToBoolean] of a number: false exactly for zero. *)
Definition number_toBoolean (d : decimal) : bool :=
  match to_double d with
  | Finite m _ => negb (m =? 0)
  | Infinity => true
  end.

(** The least [n] from [n0] on with [p / q < 10^n]. *)
Fixpoint pow10_above (fuel : nat) (p q n : Z) : Z :=
  match fuel with
  | O => n
  | S f =>
      let '(a, b) := scaled 10 p q n in
      if a <? b then n else pow10_above f p q (n + 1)
  end.

(** The shortest decimal [s * 10^(n-k)], [s] of [k] digits, that becomes
    [Finite m e] again, searched from [k] digits on; the nearer of the two
    neighbours when both do. *)
Fixpoint shortest (fuel : nat) (m e n0 k : Z) : Z * Z :=
  match fuel with
  | O => (0, 0)
  | S f =>
      let '(p, q) := scaled 2 m 1 (- e) in
      let t := n0 - k in
      let '(a, b) := scaled 10 p q t in
      let lo := a / b in
      let r := a mod b in
      let hi := lo + 1 in
      let back (s : Z) :=
        let '(p', q') := scaled 10 s 1 (- t) in
        double_eqb (round_double p' q') (Finite m e) in
      let ok_lo := back lo in
      let ok_hi := (negb (r =? 0) && back hi)%bool in
      let pick_hi := if hi =? 10 ^ k then (10 ^ (k - 1), n0 + 1) else (hi, n0) in
      match ok_lo, ok_hi with
      | true, false => (lo, n0)
      | false, true => pick_hi
      | true, true =>
          match 2 * r ?= b with
          | Lt => (lo, n0)
          | Gt => pick_hi
          | Eq => if Z.even lo then (lo, n0) else pick_hi
          end
      | false, false => shortest f m e n0 (k + 1)
      end
  end.

Definition zeros (n : Z) : text := repeat 48%N (Z.to_nat n).

(** [Number::toString] in radix 10. *)
Definition number_toString (d : decimal) : text :=
  match to_double d with
  | Infinity => (if neg d then lit "-" else []) ++ lit "Infinity"
  | Finite m e =>
      if m =? 0 then lit "0"
      else
        let '(p, q) := scaled 2 m 1 (- e) in
        let n0 := pow10_above 700 p q (-324) in
        let '(s, n) := shortest 17 m e n0 1 in
        let ds := digits (Z.to_N s) in
        let k := Z.of_nat (List.length ds) in
        let body :=
          if ((-5 <=? n) && (n <=? 21))%bool then
            if k <=? n then ds ++ zeros (n - k)
            else if 0 <? n then
              firstn (Z.to_nat n) ds ++ lit "." ++ skipn (Z.to_nat n) ds
            else lit "0." ++ zeros (- n) ++ ds
          else
            let ex := (if n - 1 <? 0 then lit "-" else lit "+")
                      ++ digits (Z.to_N (Z.abs (n - 1))) in
            match ds with
            | [d1] => [d1] ++ lit "e" ++ ex
            | d1 :: rest => [d1] ++ lit "." ++ rest ++ lit "e" ++ ex
            | [] => []
            end in
        (if neg d then lit "-" else []) ++ body
  end.

Close Scope Z_scope.

(** *** Property access and conversions *)

(** The own property [k] of an object; of duplicate members the last
    one counts. *)
Fixpoint lookup_member (k : text) (m : list (text * value)) : option value :=
  match m with
  | [] => None
  | (k', v) :: r =>
      match lookup_member k r with
      | Some v' => Some v'
      | None => if text_eqb k k' then Some v else None
      end
  end.

(** A canonical array index. *)
Definition index_of_key (k : text) : option nat :=
  if forallb is_digit k then
    let '(n, _, _) := take_digits k 0%N O in
    if text_eqb (digits n) k then Some (N.to_nat n) else None
  else None.

(** [v[k]] for [v] neither null nor undefined; [None] stands for
    [undefined].  Meant for the names the source reads ([choices], [0],
    [delta], [content], [error]), none of which a prototype defines. *)
Definition get (k : text) (v : value) : option value :=
  match v with
  | JObject m => lookup_member k m
  | JArray l =>
      match index_of_key k with
      | Some i => nth_error l i
      | None => None
      end
  | JString s =>
      match index_of_key k with
      | Some i => option_map (fun c => JString [c]) (nth_error s i)
      | None => None
      end
  | _ => None
  end.

(** [v?.[k]]: undefined when [v] is null or undefined. *)
Definition opt_get (k : text) (v : option value) : option value :=
  match v with
  | None | Some JNull => None
  | Some x => get k x
  end.

Definition toBoolean (v : option value) : bool :=
  match v with
  | None | Some JNull => false
  | Some (JBool b) => b
  | Some (JNumber d) => number_toBoolean d
  | Some (JString s) => match s with [] => false | _ :: _ => true end
  | Some (JArray _) | Some (JObject _) => true
  end.

(** [ToString(v)]; [None] stands for the [TypeError] of an object whose
    own [toString] member hides the inherited method. *)
Fixpoint toString (v : value) : option text :=
  match v with
  | JNull => Some (lit "null")
  | JBool b => Some (if b then lit "true" else lit "false")
  | JNumber d => Some (number_toString d)
  | JString s => Some s
  | JArray l =>
      (fix join (l : list value) (first : bool) : option text :=
         match l with
         | [] => Some []
         | x :: r =>
             match (match x with JNull => Some [] | _ => toString x end),
                   join r false with
             | Some a, Some b => Some ((if first then [] else lit ",") ++ a ++ b)
             | _, _ => None
             end
         end) l true
  | JObject m =>
      match lookup_member (lit "toString") m with
      | Some _ => None
      | None => Some (lit "[object Object]")
      end
  end.

End JSON.

Import JSON.

(** ** The stream assembler

    The read loop of [handleSend] (ChatPanel.tsx, lines 90-118) and of
    [handleAction] (StudioPanel.tsx, lines 140-168).  The two loops are the
    same statement for statement; they differ in the sink that receives a
    snapshot ([setMessages] and [setGeneratedContent]). *)

Module Assembler.

(** [buf], the accumulated response ([assistantContent] / [content]) and
    the snapshots handed to the sink so far, oldest first. *)
Record state := State { buf : text; content : text; emitted : list text }.

Definition init : state := State [] [] [].

(** The body of the [try] block: [JSON.parse(json).choices?.[0]?.delta?.content],
    and the append when that value is truthy.  [None] stands for an
    exception (a [SyntaxError] of the parser, the [TypeError] of reading
    [choices] from [null], or a [TypeError] of the string conversion);
    [Some None] for a falsy delta; [Some (Some s)] for the new value of
    the accumulated response. *)
Definition try_block (json acc : text) : option (option text) :=
  match parse json with
  | None => None
  | Some JNull => None
  | Some v =>
      let c := opt_get (lit "content")
                 (opt_get (lit "delta")
                    (opt_get (lit "0") (get (lit "choices") v))) in
      if toBoolean c then
        match c with
        | Some cv =>
            match toString cv with
            | Some s => Some (Some (acc ++ s))
            | None => None
            end
        | None => Some None
        end
      else Some None
  end.

(** How one turn of the inner loop ends: at the end of the body or at
    a [continue]; at the [break] of the sentinel; at the [break] of the
    [catch]. *)
Inductive flow :=
| Next (st : state)
| Stop (st : state)
| Rebuffer (st : state).

(** The body of the inner loop for a line feed found at [nl]
    (ChatPanel.tsx, lines 100-116; StudioPanel.tsx, lines 151-166). *)
Definition body (nl : nat) (st : state) : flow :=
  let line := slice_to nl (buf st) in
  let rest := slice_from (nl + 1) (buf st) in
  let line := if endsWith1 CR line then drop_last line else line in
  if (negb (startsWith (lit "data: ") line)
      || startsWith (lit ":") line
      || match trim line with [] => true | _ :: _ => false end)%bool
  then Next (State rest (content st) (emitted st))
  else
    let json := trim (slice_from 6 line) in
    if text_eqb json (lit "[DONE]")
    then Stop (State rest (content st) (emitted st))
    else
      match try_block json (content st) with
      | Some (Some acc) => Next (State rest acc (emitted st ++ [acc]))
      | Some None => Next (State rest (content st) (emitted st))
      | None => Rebuffer (State (line ++ [LF] ++ rest) (content st) (emitted st))
      end.

(** The inner loop [while ((nl = buf.indexOf(LF)) !== -1)].  Every turn
    removes at least the line feed from [buf], so [length buf] turns
    are enough; [lines] below supplies them. *)
Fixpoint lines_fuel (fuel : nat) (st : state) : state :=
  match fuel with
  | O => st
  | S f =>
      match indexOf LF (buf st) with
      | None => st
      | Some nl =>
          match body nl st with
          | Next st' => lines_fuel f st'
          | Stop st' => st'
          | Rebuffer st' => st'
          end
      end
  end.

Definition lines (st : state) : state :=
  lines_fuel (List.length (buf st)) st.

(** One turn of the outer loop for a chunk that [reader.read()] delivers:
    [buf += decoder.decode(value, { stream: true })], then the inner
    loop. *)
Definition on_chunk (st : state) (chunk : text) : state :=
  lines (State (buf st ++ chunk) (content st) (emitted st)).

(** The outer loop [while (true)] over the chunks of a stream, up to
    the [done] result that leaves it. *)
Definition read_loop (chunks : list text) (st : state) : state :=
  fold_left on_chunk chunks st.

Definition assemble (chunks : list text) : state := read_loop chunks init.

End Assembler.

Import Assembler.

(** ** Request failure

    The branch [if (!resp.ok)] of the three requests: [handleSend]
    (ChatPanel.tsx, lines 84-87), [handleVideoAction] (StudioPanel.tsx,
    lines 96-99) and [handleAction] (StudioPanel.tsx, line 137).  What
    the branch throws reaches the [catch] of the handler, which shows
    its message in a toast. *)

Module Request.

(** The status of a response and the text of its body; [None] for a
    body that cannot be read. *)
Record Response := { status : N; body : option text }.

(** [resp.ok] *)
Definition ok (r : Response) : bool :=
  (N.leb 200 (status r) && N.leb (status r) 299)%bool.

(** [resp.json()]; [None] stands for a rejected promise. *)
Definition json (r : Response) : option value :=
  match body r with
  | Some t => parse t
  | None => None
  end.

Inductive thrown :=
| Error (message : text)
| TypeError.

(** The template literal with the status code. *)
Definition generic (r : Response) : text := lit "Error " ++ digits (status r).

(** [throw new Error(err.error || fallback)] *)
Definition throw_error (err : value) (fallback : text) : thrown :=
  match err with
  | JNull => TypeError
  | _ =>
      let e := get (lit "error") err in
      if toBoolean e then
        match e with
        | Some v =>
            match toString v with
            | Some m => Error m
            | None => TypeError
            end
        | None => Error fallback
        end
      else Error fallback
  end.


(** [handleVideoAction]: the substitute carries the generic message. *)
Definition handleVideoAction_failure (r : Response) : option thrown :=
  if ok r then None
  else
    let err := match json r with
               | Some v => v
               | None => JObject [(lit "error", JString (generic r))]
               end in
    Some (throw_error err (generic r)).


End Request.

(** ** The presentation player

    The component [VideoPlayer] (VideoPlayer.tsx).  Its React state
    ([useState], lines 28-32) and its refs (lines 33-36) form one record,
    together with what the runtime holds for it: the utterance given to
    [speechSynthesis.speak] and the auto-advance timeouts that were set
    and have not fired.

    - [intervalRef] is the live interval, if any: [clearInterval] is
      modelled by [None].
    - [speaking] is the index that the callbacks of the current utterance
      captured; [speechSynthesis.cancel()] is taken to discard the
      utterance without an event.
    - [slideProgress] and [durationRef] are floats in the source and
      rationals here. *)

Module Player.

Record Slide := { title : text; points : list text; narration : text; color : text }.

Inductive Theme := blue | purple | green | orange | pink | cyan.

(** [colorThemes[key]] *)
Definition colorThemes (key : text) : option Theme :=
  if text_eqb key (lit "blue") then Some blue
  else if text_eqb key (lit "purple") then Some purple
  else if text_eqb key (lit "green") then Some green
  else if text_eqb key (lit "orange") then Some orange
  else if text_eqb key (lit "pink") then Some pink
  else if text_eqb key (lit "cyan") then Some cyan
  else None.

Inductive Interval :=
| FallbackTick (index : Z)   (* the interval of lines 53-68 *)
| SpeechTick.                (* the interval of lines 82-85 *)

Record state := State {
  currentSlide : Z;
  isPlaying : bool;
  isMuted : bool;
  slideProgress : Q;
  showControls : bool;
  intervalRef : option Interval;
  startTimeRef : Z;
  durationRef : Q;
  controlsTimerRef : bool;
  speaking : option Z;
  pending : list Z
}.

Definition init : state :=
  State 0 false false 0 true None 0 5000 false None [].

Definition set_currentSlide (v : Z) (s : state) : state :=
  State v (isPlaying s) (isMuted s) (slideProgress s) (showControls s)
        (intervalRef s) (startTimeRef s) (durationRef s) (controlsTimerRef s)
        (speaking s) (pending s).

Definition set_isPlaying (v : bool) (s : state) : state :=
  State (currentSlide s) v (isMuted s) (slideProgress s) (showControls s)
        (intervalRef s) (startTimeRef s) (durationRef s) (controlsTimerRef s)
        (speaking s) (pending s).

Definition set_isMuted (v : bool) (s : state) : state :=
  State (currentSlide s) (isPlaying s) v (slideProgress s) (showControls s)
        (intervalRef s) (startTimeRef s) (durationRef s) (controlsTimerRef s)
        (speaking s) (pending s).

Definition set_slideProgress (v : Q) (s : state) : state :=
  State (currentSlide s) (isPlaying s) (isMuted s) v (showControls s)
        (intervalRef s) (startTimeRef s) (durationRef s) (controlsTimerRef s)
        (speaking s) (pending s).

Definition set_showControls (v : bool) (s : state) : state :=
  State (currentSlide s) (isPlaying s) (isMuted s) (slideProgress s) v
        (intervalRef s) (startTimeRef s) (durationRef s) (controlsTimerRef s)
        (speaking s) (pending s).

Definition set_intervalRef (v : option Interval) (s : state) : state :=
  State (currentSlide s) (isPlaying s) (isMuted s) (slideProgress s)
        (showControls s) v (startTimeRef s) (durationRef s)
        (controlsTimerRef s) (speaking s) (pending s).

Definition set_startTimeRef (v : Z) (s : state) : state :=
  State (currentSlide s) (isPlaying s) (isMuted s) (slideProgress s)
        (showControls s) (intervalRef s) v (durationRef s)
        (controlsTimerRef s) (speaking s) (pending s).

Definition set_durationRef (v : Q) (s : state) : state :=
  State (currentSlide s) (isPlaying s) (isMuted s) (slideProgress s)
        (showControls s) (intervalRef s) (startTimeRef s) v
        (controlsTimerRef s) (speaking s) (pending s).

Definition set_controlsTimerRef (v : bool) (s : state) : state :=
  State (currentSlide s) (isPlaying s) (isMuted s) (slideProgress s)
        (showControls s) (intervalRef s) (startTimeRef s) (durationRef s) v
        (speaking s) (pending s).

Definition set_speaking (v : option Z) (s : state) : state :=
  State (currentSlide s) (isPlaying s) (isMuted s) (slideProgress s)
        (showControls s) (intervalRef s) (startTimeRef s) (durationRef s)
        (controlsTimerRef s) v (pending s).

Definition set_pending (v : list Z) (s : state) : state :=
  State (currentSlide s) (isPlaying s) (isMuted s) (slideProgress s)
        (showControls s) (intervalRef s) (startTimeRef s) (durationRef s)
        (controlsTimerRef s) (speaking s) v.

(** The controls of the player and the keys of [handleKey]. *)
Inductive Action := Play | Pause | Stop | GoToSlide (index : Z) | ToggleMute.

Inductive KeyName := Space | ArrowRight | ArrowLeft | KeyM.

Inductive Event :=
| Call (a : Action)        (* the handler alone *)
| Click (a : Action)       (* a button; the click reaches the root element *)
| Key (k : KeyName)        (* [handleKey], lines 151-157 *)
| Pointer                  (* [onMouseMove] / [onClick] of the root element *)
| Tick                     (* the interval callback *)
| Advance (n : nat)        (* the [n]-th pending auto-advance timeout fires *)
| HideControls             (* the timeout of line 125 fires *)
| SpeechEnd                (* [utterance.onend] *)
| SpeechError.             (* [utterance.onerror] *)

(** What the component returns: [null], or the slide with its theme. *)
Inductive view := Null | Shown (slide : Slide) (theme : Theme).

Section Component.

Variable slides : list Slide.

(** [slides[i]] for an integer [i]; [None] stands for [undefined]. *)
Definition slide_at (i : Z) : option Slide :=
  if (i <? 0)%Z then None else nth_error slides (Z.to_nat i).

Definition slides_length : Z := Z.of_nat (List.length slides).

(** Lines 41-45. *)
Definition stopSpeech (s : state) : state :=
  set_slideProgress 0 (set_intervalRef None (set_speaking None s)).

(** Line 77-78: [Math.max((wordCount / 140) * 60 * 1000, 3000)]. *)
Definition estimatedMs (t : text) : Q :=
  Qmax ((inject_Z (Z.of_nat (split_ws_length t)) / 140) * 60 * 1000) 3000.

(** Lines 47-106.  [None] stands for the [TypeError] of reading
    [narration] from [undefined]. *)
Definition speakSlide (now index : Z) (s : state) : option state :=
  let s := stopSpeech s in
  if (isMuted s || match slide_at index with None => true | Some _ => false end)%bool
  then
    Some (set_intervalRef (Some (FallbackTick index))
            (set_startTimeRef now (set_durationRef 4000 s)))
  else
    match slide_at index with
    | None => None
    | Some sl =>
        Some (set_speaking (Some index)
                (set_intervalRef (Some SpeechTick)
                   (set_startTimeRef now
                      (set_durationRef (estimatedMs (narration sl)) s))))
    end.

(** [Math.min(elapsed / durationRef.current, 1)] *)
Definition progress_at (now : Z) (s : state) : Q :=
  Qmin (inject_Z (now - startTimeRef s) / durationRef s) 1.

(** The callbacks of the two intervals, lines 53-68 and 82-85. *)
Definition tick (now : Z) (s : state) : state :=
  match intervalRef s with
  | None => s
  | Some (FallbackTick index) =>
      let progress := progress_at now s in
      let s := set_slideProgress progress s in
      if Qle_bool 1 progress
      then set_pending (pending s ++ [index]) (set_intervalRef None s)
      else s
  | Some SpeechTick => set_slideProgress (progress_at now s) s
  end.

(** The callback of the timeouts of lines 59-66 and 90-97. *)
Definition advance (index : Z) (s : state) : state :=
  if (index <? slides_length - 1)%Z
  then set_currentSlide (index + 1) s
  else set_slideProgress 0 (set_isPlaying false s).

(** Lines 87-98. *)
Definition onend (s : state) : state :=
  match speaking s with
  | None => s
  | Some index =>
      set_pending (pending s ++ [index])
        (set_slideProgress 1 (set_intervalRef None (set_speaking None s)))
  end.

(** Lines 100-103. *)
Definition onerror (s : state) : state :=
  match speaking s with
  | None => s
  | Some _ => set_isPlaying false (set_intervalRef None (set_speaking None s))
  end.

(** Lines 121-127, with the [isPlaying] that the callback closed over. *)
Definition resetControlsTimer (playing : bool) (s : state) : state :=
  set_controlsTimerRef playing (set_showControls true s).

Definition handlePlay (s : state) : state := set_isPlaying true s.

Definition handlePause (s : state) : state :=
  set_intervalRef None (set_speaking None (set_isPlaying false s)).

Definition handleStop (s : state) : state :=
  set_currentSlide 0 (stopSpeech (set_isPlaying false s)).

(** Lines 137-142. *)
Definition goToSlide (now index : Z) (s : state) : option state :=
  if ((index <? 0)%Z || (slides_length <=? index)%Z)%bool then Some s
  else
    let s := set_currentSlide index (stopSpeech s) in
    if isPlaying s then speakSlide now index s else Some s.

(** Lines 144-147. *)
Definition toggleMute (s : state) : state :=
  let s' := set_isMuted (negb (isMuted s)) s in
  if negb (isMuted s) then set_speaking None s' else s'.

Definition act (now : Z) (a : Action) (s : state) : option state :=
  match a with
  | Play => Some (handlePlay s)
  | Pause => Some (handlePause s)
  | Stop => Some (handleStop s)
  | GoToSlide i => goToSlide now i s
  | ToggleMute => Some (toggleMute s)
  end.

Definition handleKey (k : KeyName) (s : state) : Action :=
  match k with
  | Space => if isPlaying s then Pause else Play
  | ArrowRight => GoToSlide (currentSlide s + 1)
  | ArrowLeft => GoToSlide (currentSlide s - 1)
  | KeyM => ToggleMute
  end.

Definition remove_nth (n : nat) (l : list Z) : list Z :=
  firstn n l ++ skipn (S n) l.

(** The callback that an event runs. *)
Definition handle (now : Z) (e : Event) (s : state) : option state :=
  match e with
  | Call a => act now a s
  | Click a => option_map (resetControlsTimer (isPlaying s)) (act now a s)
  | Key k => act now (handleKey k s) s
  | Pointer => Some (resetControlsTimer (isPlaying s) s)
  | Tick => Some (tick now s)
  | Advance n =>
      match nth_error (pending s) n with
      | Some index => Some (advance index (set_pending (remove_nth n (pending s)) s))
      | None => Some s
      end
  | HideControls =>
      if controlsTimerRef s
      then Some (set_showControls false (set_controlsTimerRef false s))
      else Some s
  | SpeechEnd => Some (onend s)
  | SpeechError => Some (onerror s)
  end.

(** The effects of the render that follows, lines 108-110 and 129-131:
    each runs when one of its dependencies differs from the previous
    render.  [speakSlide] is a new function when [isMuted] changes. *)
Definition effects (now : Z) (old new : state) : option state :=
  let speak_deps :=
    (negb (currentSlide old =? currentSlide new)%Z
     || xorb (isPlaying old) (isPlaying new)
     || xorb (isMuted old) (isMuted new))%bool in
  let after_speak :=
    if (speak_deps && isPlaying new)%bool
    then speakSlide now (currentSlide new) new
    else Some new in
  match after_speak with
  | None => None
  | Some s =>
      if xorb (isPlaying old) (isPlaying new)
      then Some (resetControlsTimer (isPlaying new) s)
      else Some s
  end.

(** One event at time [now]: its callback, then the effects. *)
Definition step (now : Z) (e : Event) (s : state) : option state :=
  match handle now e s with
  | None => None
  | Some s' => effects now s s'
  end.

Fixpoint run (evs : list (Z * Event)) (s : state) : option state :=
  match evs with
  | [] => Some s
  | (now, e) :: r =>
      match step now e s with
      | None => None
      | Some s' => run r s'
      end
  end.

(** Lines 38-39 and 162. *)
Definition render (s : state) : view :=
  let slide := slide_at (currentSlide s) in
  let theme :=
    match slide with
    | Some sl => match colorThemes (color sl) with Some t => t | None => blue end
    | None => blue
    end in
  match slide with
  | None => Null
  | Some sl => Shown sl theme
  end.

End Component.

End Player.

Close Scope Q_scope.

(** ** The message list of the chat panel

    The updater that [handleSend] passes to [setMessages] for every
    snapshot (ChatPanel.tsx, lines 110-114).  The updater reads the
    variable [assistantContent] when React applies it; the model gives it
    the value of the variable at the call, which is the value it reads
    at the latest for the last call. *)

Module Chat.

Inductive Role := user | assistant.

Record Message := { id : text; role : Role; content : text }.

(** [prev.map((m) => m.id === assistantId ? { ...m, content } : m)] *)
Definition with_content (assistantId c : text) (m : Message) : Message :=
  if text_eqb (id m) assistantId then Build_Message (id m) (role m) c else m.

(** The updater of lines 110-114. *)
Definition updater (assistantId c : text) (prev : list Message) : list Message :=
  match List.last (List.map Some prev) None with
  | Some l =>
      if text_eqb (id l) assistantId
      then List.map (with_content assistantId c) prev
      else prev ++ [Build_Message assistantId assistant c]
  | None => prev ++ [Build_Message assistantId assistant c]
  end.

(** The message list after the snapshots of a stream, from the list
    [prev] that holds the message of the user as its last element. *)
Definition shown (assistantId : text) (prev : list Message) (chunks : list text)
  : list Message :=
  fold_left (fun ms c => updater assistantId c ms)
            (Assembler.emitted (Assembler.assemble chunks)) prev.

End Chat.

(** ** [JSON.stringify] of an error object

    [JSON.stringify({ error: m })], as the serverless functions build
    the body of every error response.  [QuoteJSONString] of ECMA-262:
    the two-character escapes, a [\u] escape with four lower-case
    hexadecimal digits for the other control characters and for a
    surrogate without its partner, every other code unit as it is. *)

Module Stringify.

Definition hex_digit (k : N) : N :=
  if N.ltb k 10 then (48 + k)%N else (87 + k)%N.

Definition unicode_escape (c : N) : text :=
  [92%N; 117%N;
   hex_digit (N.div c 4096);
   hex_digit (N.modulo (N.div c 256) 16);
   hex_digit (N.modulo (N.div c 16) 16);
   hex_digit (N.modulo c 16)].

Definition is_lead (c : N) : bool := (N.leb 55296 c && N.leb c 56319)%bool.
Definition is_trail (c : N) : bool := (N.leb 56320 c && N.leb c 57343)%bool.

(** A code unit that is not part of a surrogate pair. *)
Definition quote_unit (c : N) : text :=
  if N.eqb c 8 then [92%N; 98%N]
  else if N.eqb c 9 then [92%N; 116%N]
  else if N.eqb c 10 then [92%N; 110%N]
  else if N.eqb c 12 then [92%N; 102%N]
  else if N.eqb c 13 then [92%N; 114%N]
  else if N.eqb c 34 then [92%N; 34%N]
  else if N.eqb c 92 then [92%N; 92%N]
  else if (N.ltb c 32 || is_lead c || is_trail c)%bool then unicode_escape c
  else [c].

Fixpoint quote_units (s : text) : text :=
  match s with
  | [] => []
  | c :: r =>
      if is_lead c then
        match r with
        | d :: r' =>
            if is_trail d then c :: d :: quote_units r'
            else unicode_escape c ++ quote_units r
        | [] => unicode_escape c
        end
      else quote_unit c ++ quote_units r
  end.

Definition quote (s : text) : text := [34%N] ++ quote_units s ++ [34%N].

(** [JSON.stringify({ error: m })] *)
Definition error_object (m : text) : text :=
  lit "{" ++ quote (lit "error") ++ lit ":" ++ quote m ++ lit "}".

End Stringify.

(** ** The error responses of [generate-slides]

    The serverless function that [handleVideoAction] calls
    (src/unnamed/part_001, the handler of [generate-slides]).  Each of
    its failure
    branches answers with a JSON body that holds the message under
    [error].  The body is modelled as the text that the client reads:
    [JSON.stringify] writes no lone surrogate, so encoding the body as
    UTF-8 and decoding it again gives the same code units. *)

Module Slides.

Import Request.

Definition error_response (st : N) (m : text) : Response :=
  Build_Response st (Some (Stringify.error_object m)).

(** No sources in the request (lines 16-21). *)
Definition no_sources : Response :=
  error_response 400 (lit "No sources provided").

(** The gateway answered with a status outside 200-299
    (lines 81-100). *)
Definition gateway_failure (gateway_status : N) : Response :=
  if N.eqb gateway_status 429
  then error_response 429 (lit "Rate limit exceeded. Please try again in a moment.")
  else if N.eqb gateway_status 402
  then error_response 402 (lit "AI usage credits exhausted.")
  else error_response 500 (lit "AI service error").

(** The answer of the gateway holds no tool call (lines 105-111). *)
Definition no_tool_call : Response :=
  error_response 500 (lit "Failed to generate presentation").

(** The [catch] of the handler (lines 118-124): the message of an
    [Error], [None] for anything else that was thrown. *)
Definition caught (message : option text) : Response :=
  error_response 500
    (match message with
     | Some m => m
     | None => lit "Unknown error"
     end).

End Slides.

(** ** The text that [playAudio] speaks

    [text.replace(re, "").trim()] of [playAudio] (StudioPanel.tsx,
    line 186), where [re] is a global multi-line regular expression: at
    the start of the text and after every line terminator it matches the
    first of its alternatives that fits, a host label, one of five
    single characters, or one of three bracketed words.  A match has no
    line terminator in it, so the search goes on behind it in the middle
    of a line. *)

Module Audio.

Definition isLineTerminator (c : N) : bool :=
  (N.eqb c 10 || N.eqb c 13 || N.eqb c 8232 || N.eqb c 8233)%bool.

(** The character class of the second alternative: the two square
    brackets, the number sign, the asterisk and the rightwards arrow. *)
Definition in_class (c : N) : bool :=
  (N.eqb c 91 || N.eqb c 93 || N.eqb c 35 || N.eqb c 42 || N.eqb c 8594)%bool.

(** The length of what the group matches at the front of [s]: the
    alternatives in their order. *)
Definition token (s : text) : option nat :=
  if (startsWith (lit "Host 1:") s || startsWith (lit "Host 2:") s)%bool
  then Some 7
  else if match s with c :: _ => in_class c | [] => false end
  then Some 1
  else if startsWith (lit "[SCENE]") s then Some 7
  else if startsWith (lit "[NARRATION]") s then Some 11
  else if startsWith (lit "[VISUAL]") s then Some 8
  else None.

(** The replacement: [skip] code units of a match are still to be
    dropped; [atStart] says whether the position is the start of a
    line. *)
Fixpoint strip (skip : nat) (atStart : bool) (s : text) : text :=
  match s with
  | [] => []
  | c :: r =>
      match skip with
      | S k => strip k false r
      | O =>
          if atStart then
            match token s with
            | Some (S k) => strip k false r
            | _ => c :: strip 0 (isLineTerminator c) r
            end
          else c :: strip 0 (isLineTerminator c) r
      end
  end.

Definition clean (t : text) : text := trim (strip 0 true t).

End Audio.

(** * Properties of the stream assembler *)

Section AssemblerFacts.

Import Assembler.

(** ** The line feed search *)

Lemma indexOf_Some (c : N) (s : text) (n : nat) :
  indexOf c s = Some n ->
  s = firstn n s ++ c :: skipn (S n) s /\ indexOf c (firstn n s) = None.
Proof.
  revert n. induction s as [|x r IH]; simpl; intros n H; [discriminate|].
  destruct (N.eqb_spec x c) as [->|Hne].
  - injection H as <-. simpl. auto.
  - destruct (indexOf c r) as [m|] eqn:E; [|discriminate].
    injection H as <-. destruct (IH m eq_refl) as [H1 H2].
    change (firstn (S m) (x :: r)) with (x :: firstn m r).
    change (skipn (S (S m)) (x :: r)) with (skipn (S m) r).
    split.
    + simpl. f_equal. exact H1.
    + simpl. destruct (N.eqb_spec x c); [contradiction|]. now rewrite H2.
Qed.

Lemma indexOf_lt (c : N) (s : text) (n : nat) :
  indexOf c s = Some n -> n < List.length s.
Proof.
  revert n. induction s as [|x r IH]; simpl; intros n H; [discriminate|].
  destruct (N.eqb x c).
  - injection H as <-. lia.
  - destruct (indexOf c r) as [m|]; [|discriminate].
    injection H as <-. specialize (IH m eq_refl). lia.
Qed.

Lemma indexOf_app_Some (c : N) (s t : text) (n : nat) :
  indexOf c s = Some n -> indexOf c (s ++ t) = Some n.
Proof.
  revert n. induction s as [|x r IH]; simpl; intros n H; [discriminate|].
  destruct (N.eqb x c); [assumption|].
  destruct (indexOf c r) as [m|]; [|discriminate].
  now rewrite (IH m eq_refl).
Qed.

Lemma indexOf_prefix (c : N) (l r : text) :
  indexOf c l = None -> indexOf c (l ++ c :: r) = Some (List.length l).
Proof.
  induction l as [|x l IH]; simpl; intros H.
  - now rewrite N.eqb_refl.
  - destruct (N.eqb x c); [discriminate|].
    destruct (indexOf c l); [discriminate|]. now rewrite IH.
Qed.

Lemma indexOf_None_app (c : N) (s t : text) :
  indexOf c s = None ->
  indexOf c (s ++ t) = option_map (fun n => List.length s + n) (indexOf c t).
Proof.
  induction s as [|x r IH]; simpl; intros H.
  - now destruct (indexOf c t).
  - destruct (N.eqb x c); [discriminate|].
    destruct (indexOf c r); [discriminate|].
    rewrite (IH eq_refl). now destruct (indexOf c t).
Qed.

(** ** The inner loop never runs short of turns *)

Definition with_more (x : text) (st : state) : state :=
  State (buf st ++ x) (content st) (emitted st).

Definition flow_map (f : state -> state) (w : flow) : flow :=
  match w with
  | Next st => Next (f st)
  | Stop st => Stop (f st)
  | Rebuffer st => Rebuffer (f st)
  end.

Lemma body_Next_shorter (nl : nat) (st st' : state) :
  indexOf LF (buf st) = Some nl ->
  body nl st = Next st' ->
  List.length (buf st') < List.length (buf st).
Proof.
  intros Hi Hb. apply indexOf_lt in Hi. unfold body in Hb.
  assert (Hlen : List.length (slice_from (nl + 1) (buf st)) < List.length (buf st)).
  { unfold slice_from. rewrite length_skipn. lia. }
  repeat match type of Hb with
         | (if ?c then _ else _) = _ => destruct c
         | match ?c with _ => _ end = _ => destruct c
         end; try discriminate; injection Hb as <-; exact Hlen.
Qed.

Lemma lines_fuel_stable (f1 f2 : nat) (st : state) :
  List.length (buf st) <= f1 -> List.length (buf st) <= f2 ->
  lines_fuel f1 st = lines_fuel f2 st.
Proof.
  revert f2 st. induction f1 as [|f1 IH]; intros f2 st H1 H2.
  - destruct (buf st) as [|x r] eqn:Hb; [|simpl in H1; lia].
    destruct f2; simpl; [reflexivity|]. now rewrite Hb.
  - destruct f2 as [|f2].
    + destruct (buf st) as [|x r] eqn:Hb; [|simpl in H2; lia].
      simpl. now rewrite Hb.
    + simpl. destruct (indexOf LF (buf st)) as [nl|] eqn:Hi; [|reflexivity].
      destruct (body nl st) as [st'|st'|st'] eqn:Hb; try reflexivity.
      pose proof (body_Next_shorter _ _ _ Hi Hb) as Hlt.
      apply IH; lia.
Qed.

Lemma lines_fuel_enough (fuel : nat) (st : state) :
  List.length (buf st) <= fuel -> lines_fuel fuel st = lines st.
Proof.
  intros H. unfold lines. apply lines_fuel_stable; lia.
Qed.

(** The loop equation of [lines]: what the [while] statement says. *)
Lemma lines_unfold (st : state) :
  lines st =
  match indexOf LF (buf st) with
  | None => st
  | Some nl =>
      match body nl st with
      | Next st' => lines st'
      | Stop st' => st'
      | Rebuffer st' => st'
      end
  end.
Proof.
  unfold lines at 1.
  destruct (buf st) as [|x r] eqn:Hb.
  - reflexivity.
  - cbn [List.length lines_fuel]. rewrite Hb.
    destruct (indexOf LF (x :: r)) as [nl|] eqn:Hi; [|reflexivity].
    rewrite <- Hb in *.
    destruct (body nl st) as [st'|st'|st'] eqn:Hbody; try reflexivity.
    apply lines_fuel_enough.
    pose proof (body_Next_shorter _ _ _ Hi Hbody) as Hlt.
    rewrite Hb in Hlt. simpl in Hlt. lia.
Qed.

(** ** Monotonic accumulation *)

(** [b] is [a] with something appended. *)
Definition extends (a b : text) : Prop := exists t, b = a ++ t.

(** Every snapshot of the list is extended by the one after it. *)
Fixpoint growing (l : list text) : Prop :=
  match l with
  | a :: r => match r with
              | b :: _ => extends a b /\ growing r
              | [] => True
              end
  | [] => True
  end.

Lemma extends_refl (a : text) : extends a a.
Proof. exists []. now rewrite app_nil_r. Qed.

Lemma extends_trans (a b c : text) : extends a b -> extends b c -> extends a c.
Proof. intros [t ->] [u ->]. exists (t ++ u). now rewrite app_assoc. Qed.

Lemma growing_snoc (l : list text) (x : text) :
  growing l -> Forall (fun a => extends a x) l -> growing (l ++ [x]).
Proof.
  induction l as [|a r IH]; intros Hg Hall; [exact I|].
  inversion Hall as [|? ? Ha Hr]; subst.
  destruct r as [|b r'].
  - simpl. split; [exact Ha|exact I].
  - destruct Hg as [Hab Hg]. split; [exact Hab|]. apply IH; assumption.
Qed.

(** The invariant of the loops: the snapshots grow, and the accumulated
    response extends each of them. *)
Definition snapshots_ok (st : state) : Prop :=
  growing (emitted st) /\ Forall (fun a => extends a (content st)) (emitted st).

(** [st'] comes after [st]: appended text, appended snapshots, and the
    invariant kept. *)
Definition later (st st' : state) : Prop :=
  extends (content st) (content st')
  /\ (exists l, emitted st' = emitted st ++ l)
  /\ (snapshots_ok st -> snapshots_ok st').

Lemma later_refl (st : state) : later st st.
Proof.
  split; [apply extends_refl|].
  split; [exists []; now rewrite app_nil_r|tauto].
Qed.

Lemma later_trans (a b c : state) : later a b -> later b c -> later a c.
Proof.
  intros (H1 & [l Hl] & H3) (K1 & [m Hm] & K3).
  split; [eapply extends_trans; eassumption|].
  split; [exists (l ++ m); now rewrite Hm, Hl, app_assoc|tauto].
Qed.

Lemma later_same (st st' : state) :
  content st' = content st -> emitted st' = emitted st -> later st st'.
Proof.
  intros Hc He. unfold later, snapshots_ok. rewrite Hc, He.
  split; [apply extends_refl|].
  split; [exists []; now rewrite app_nil_r|tauto].
Qed.

Lemma try_block_extends (json acc acc' : text) :
  try_block json acc = Some (Some acc') -> extends acc acc'.
Proof.
  unfold try_block. intros H.
  destruct (parse json) as [v|]; [|discriminate].
  set (c := opt_get _ _) in H.
  destruct v; try discriminate;
    (destruct (toBoolean c); [|discriminate];
     destruct c as [cv|]; [|discriminate];
     destruct (toString cv) as [s|]; [|discriminate];
     injection H as <-; now exists s).
Qed.

Lemma later_append (b : text) (st : state) (acc : text) :
  extends (content st) acc ->
  later st (State b acc (emitted st ++ [acc])).
Proof.
  intros Hx. unfold later, snapshots_ok. simpl.
  split; [exact Hx|]. split; [now exists [acc]|].
  intros [Hg Hall].
  assert (Hall' : Forall (fun a => extends a acc) (emitted st)).
  { revert Hall. apply Forall_impl. intros a Ha.
    eapply extends_trans; eassumption. }
  split.
  - apply growing_snoc; assumption.
  - apply Forall_app. split; [exact Hall'|].
    constructor; [apply extends_refl|constructor].
Qed.

Definition flow_state (w : flow) : state :=
  match w with Next st | Stop st | Rebuffer st => st end.

Lemma body_later (nl : nat) (st : state) : later st (flow_state (body nl st)).
Proof.
  unfold body.
  repeat match goal with
         | |- context [if ?c then _ else _] => destruct c
         end; try (apply later_same; reflexivity);
    (destruct (try_block _ _) as [[acc|]|] eqn:Ht;
     try (apply later_same; reflexivity);
     apply later_append; eapply try_block_extends; eassumption).
Qed.

Lemma lines_fuel_later (fuel : nat) (st : state) : later st (lines_fuel fuel st).
Proof.
  revert st. induction fuel as [|f IH]; intros st; simpl; [apply later_refl|].
  destruct (indexOf LF (buf st)) as [nl|]; [|apply later_refl].
  pose proof (body_later nl st) as Hb.
  destruct (body nl st) as [st'|st'|st']; simpl in Hb; try exact Hb.
  eapply later_trans; [exact Hb|apply IH].
Qed.

Lemma on_chunk_later (st : state) (chunk : text) : later st (on_chunk st chunk).
Proof.
  unfold on_chunk, lines.
  eapply later_trans; [|apply lines_fuel_later].
  apply later_same; reflexivity.
Qed.

Lemma read_loop_later (chunks : list text) (st : state) :
  later st (read_loop chunks st).
Proof.
  revert st. induction chunks as [|c r IH]; intros st; simpl; [apply later_refl|].
  eapply later_trans; [apply on_chunk_later|apply IH].
Qed.

Lemma read_loop_app (a b : list text) (st : state) :
  read_loop (a ++ b) st = read_loop b (read_loop a st).
Proof. unfold read_loop. apply fold_left_app. Qed.

(** C5.  Monotonic accumulation.  For any sequence of chunks, each
    snapshot handed to the sink is extended by the snapshot after it and
    by the accumulated response; when further chunks arrive, the snapshots
    already emitted stay as they are, new ones are added after them, and
    the accumulated response is its former value with text appended. *)
Theorem snapshots_grow_by_appends (chunks more : list text) :
  growing (emitted (assemble chunks))
  /\ Forall (fun a => extends a (content (assemble chunks)))
            (emitted (assemble chunks))
  /\ (exists l, emitted (assemble (chunks ++ more))
                = emitted (assemble chunks) ++ l)
  /\ extends (content (assemble chunks)) (content (assemble (chunks ++ more))).
Proof.
  unfold assemble.
  destruct (read_loop_later chunks init) as (_ & _ & Hinv).
  assert (Hok : snapshots_ok init) by (split; [exact I|constructor]).
  destruct (Hinv Hok) as [Hg Hall].
  rewrite read_loop_app.
  destruct (read_loop_later more (read_loop chunks init)) as (Hx & Hl & _).
  auto.
Qed.

(** ** Lines that do not parse *)

Lemma text_eqb_true (a b : text) : text_eqb a b = true <-> a = b.
Proof. unfold text_eqb. destruct (list_eq_dec N.eq_dec a b); split; congruence. Qed.

Lemma startsWith_split (p s : text) :
  startsWith p s = true -> s = p ++ skipn (List.length p) s.
Proof.
  revert s. induction p as [|a p IH]; intros s H; [reflexivity|].
  destruct s as [|b s]; [discriminate|]. simpl in H.
  apply andb_true_iff in H as [Hab Hp]. apply N.eqb_eq in Hab. subst b.
  simpl. f_equal. now apply IH.
Qed.

Lemma endsWith1_split (c : N) (s : text) :
  endsWith1 c s = true -> s = drop_last s ++ [c].
Proof.
  unfold endsWith1, drop_last. intros H.
  destruct s as [|x r] using rev_ind; [discriminate|].
  rewrite rev_app_distr in H. simpl in H. apply N.eqb_eq in H. subst x.
  now rewrite removelast_last.
Qed.

Lemma indexOf_app_None_inv (c : N) (a b : text) :
  indexOf c (a ++ b) = None -> indexOf c a = None /\ indexOf c b = None.
Proof.
  induction a as [|x a IH]; simpl; intros H; [auto|].
  destruct (N.eqb x c); [discriminate|].
  destruct (indexOf c (a ++ b)); [discriminate|].
  destruct (IH eq_refl) as [-> ->]. auto.
Qed.

Lemma trimStart_app (s x : text) :
  trimStart (s ++ x) =
  if forallb isWhite s then trimStart x else trimStart s ++ x.
Proof.
  induction s as [|c s IH]; simpl; [reflexivity|].
  destruct (isWhite c); simpl; [exact IH|reflexivity].
Qed.

Lemma trimStart_all_white (s : text) :
  forallb isWhite s = true -> trimStart s = [].
Proof.
  induction s as [|c s IH]; simpl; [reflexivity|].
  destruct (isWhite c); simpl; [exact IH|discriminate].
Qed.

(** A white unit at the end makes no difference to [trim]. *)
Lemma trim_white_end (s : text) (c : N) :
  isWhite c = true -> trim (s ++ [c]) = trim s.
Proof.
  intros Hc. unfold trim. rewrite trimStart_app.
  destruct (forallb isWhite s) eqn:Hs.
  - rewrite (trimStart_all_white _ Hs). simpl. now rewrite Hc.
  - unfold trimEnd. rewrite rev_app_distr. simpl. now rewrite Hc.
Qed.

Lemma trimStart_keeps_black (l : text) (c : N) :
  isWhite c = false -> trimStart (l ++ [c]) <> [].
Proof.
  intros Hc. induction l as [|x l IH]; simpl.
  - rewrite Hc. discriminate.
  - destruct (isWhite x); [exact IH|discriminate].
Qed.

Lemma trim_data_prefix (t : text) : trim (lit "data: " ++ t) <> [].
Proof.
  unfold trim. change (lit "data: " ++ t) with (100%N :: (lit "ata: " ++ t)).
  change (trimStart (100%N :: (lit "ata: " ++ t))) with (100%N :: (lit "ata: " ++ t)).
  unfold trimEnd. intros H. apply (f_equal (@rev N)) in H.
  rewrite rev_involutive in H. simpl in H.
  now apply (trimStart_keeps_black (rev (lit "ata: " ++ t)) 100%N) in H.
Qed.

(** The inline test of line 102 (ChatPanel.tsx) and line 153
    (StudioPanel.tsx). *)
Definition strip_cr (line : text) : text :=
  if endsWith1 CR line then drop_last line else line.

(** A state whose buffer starts with a complete data line that throws in
    the [try] block and is not the sentinel. *)
Definition blocked (st : state) : Prop :=
  exists t rest,
    buf st = lit "data: " ++ t ++ LF :: rest
    /\ indexOf LF t = None
    /\ trim t <> lit "[DONE]"
    /\ try_block (trim t) (content st) = None.

Lemma strip_cr_data (t : text) :
  exists t', strip_cr (lit "data: " ++ t) = lit "data: " ++ t'
             /\ trim t' = trim t
             /\ (indexOf LF t = None -> indexOf LF t' = None).
Proof.
  unfold strip_cr.
  destruct (endsWith1 CR (lit "data: " ++ t)) eqn:Hc.
  - destruct t as [|x r] using rev_ind; [discriminate|].
    clear IHr. unfold endsWith1 in Hc.
    rewrite app_assoc, rev_app_distr in Hc. simpl in Hc.
    apply N.eqb_eq in Hc. subst x.
    exists r. unfold drop_last. rewrite app_assoc, removelast_last.
    split; [reflexivity|]. split.
    + symmetry. now apply trim_white_end.
    + intros H. now apply indexOf_app_None_inv in H.
  - exists t. auto.
Qed.

Lemma slice_to_line (l rest : text) :
  slice_to (List.length l) (l ++ LF :: rest) = l.
Proof.
  unfold slice_to. induction l as [|x l IH]; [reflexivity|].
  cbn [List.length app firstn]. now rewrite IH.
Qed.

Lemma slice_from_line (l rest : text) :
  slice_from (List.length l + 1) (l ++ LF :: rest) = rest.
Proof.
  unfold slice_from. induction l as [|x l IH]; [reflexivity|exact IH].
Qed.

Lemma body_of_blocked_line (t rest acc : text) (em : list text) :
  indexOf LF t = None ->
  trim t <> lit "[DONE]" ->
  try_block (trim t) acc = None ->
  exists t',
    body (List.length (lit "data: " ++ t))
         (State (lit "data: " ++ t ++ LF :: rest) acc em)
    = Rebuffer (State (lit "data: " ++ t' ++ LF :: rest) acc em)
    /\ trim t' = trim t /\ indexOf LF t' = None.
Proof.
  intros Hnl Hd Ht.
  destruct (strip_cr_data t) as (t' & Hs & Htrim & Hnl').
  exists t'. split; [|auto].
  unfold body. cbn [buf content emitted].
  rewrite (app_assoc (lit "data: ") t (LF :: rest)).
  rewrite slice_to_line, slice_from_line. fold (strip_cr (lit "data: " ++ t)). rewrite Hs.
  assert (Hf1 : startsWith (lit "data: ") (lit "data: " ++ t') = true).
  { simpl. reflexivity. }
  assert (Hf2 : startsWith (lit ":") (lit "data: " ++ t') = false).
  { reflexivity. }
  rewrite Hf1, Hf2.
  destruct (trim (lit "data: " ++ t')) eqn:Hf3;
    [now apply trim_data_prefix in Hf3|].
  cbn [negb orb].
  change (slice_from 6 (lit "data: " ++ t')) with t'.
  rewrite Htrim.
  destruct (text_eqb (trim t) (lit "[DONE]")) eqn:He;
    [now apply text_eqb_true in He|].
  rewrite Ht. rewrite <- app_assoc. reflexivity.
Qed.

Lemma blocked_lines (st : state) :
  blocked st ->
  blocked (lines st) /\ content (lines st) = content st
  /\ emitted (lines st) = emitted st.
Proof.
  intros (t & rest & Hb & Hnl & Hd & Ht).
  destruct st as [b acc em]. cbn [buf content] in Hb, Ht. subst b.
  destruct (body_of_blocked_line t rest acc em Hnl Hd Ht) as (t' & Hbody & Htrim & Hnl').
  rewrite lines_unfold. cbn [buf].
  assert (Hi : indexOf LF (lit "data: " ++ t ++ LF :: rest)
               = Some (List.length (lit "data: " ++ t))).
  { rewrite (app_assoc (lit "data: ") t). apply indexOf_prefix.
    rewrite indexOf_None_app by reflexivity. now rewrite Hnl. }
  rewrite Hi, Hbody. split; [|auto].
  exists t', rest. cbn [buf content]. rewrite Htrim. auto.
Qed.

Lemma blocked_on_chunk (st : state) (chunk : text) :
  blocked st ->
  blocked (on_chunk st chunk) /\ content (on_chunk st chunk) = content st
  /\ emitted (on_chunk st chunk) = emitted st.
Proof.
  intros (t & rest & Hb & Hnl & Hd & Ht). unfold on_chunk.
  apply (blocked_lines (State (buf st ++ chunk) (content st) (emitted st))).
  exists t, (rest ++ chunk). cbn [buf content]. rewrite Hb.
  rewrite <- !app_assoc. rewrite <- app_comm_cons. auto.
Qed.

(** Once blocked, always blocked: no chunk changes the accumulated
    response or adds a snapshot. *)
Lemma blocked_forever (chunks : list text) (st : state) :
  blocked st ->
  blocked (read_loop chunks st)
  /\ content (read_loop chunks st) = content st
  /\ emitted (read_loop chunks st) = emitted st.
Proof.
  revert st. induction chunks as [|c r IH]; intros st Hb; [auto|].
  simpl. destruct (blocked_on_chunk st c Hb) as (Hb' & Hc & He).
  destruct (IH _ Hb') as (Hb'' & Hc' & He').
  rewrite Hc', He'. auto.
Qed.

Lemma strip_cr_no_LF (l : text) :
  indexOf LF l = None -> indexOf LF (strip_cr l) = None.
Proof.
  unfold strip_cr. intros H. destruct (endsWith1 CR l) eqn:Hc; [|exact H].
  apply endsWith1_split in Hc. rewrite Hc in H.
  now apply indexOf_app_None_inv in H.
Qed.

(** X21.  When the payload of an extracted data line does not parse, the
    inner loop puts the line (without its carriage return) and a line
    feed back in front of the buffer and ends for this chunk, leaving the
    accumulated response and the snapshots as they are.  No error leaves
    the loop; but the line goes back with the line feed that delimited
    it, so it is extracted again unchanged with every later chunk and
    fails again: whatever chunks follow, the accumulated response and
    the snapshots never change. *)
Theorem unparsed_line_is_rebuffered_and_blocks (st : state) (nl : nat) :
  indexOf LF (buf st) = Some nl ->
  startsWith (lit "data: ") (strip_cr (slice_to nl (buf st))) = true ->
  trim (slice_from 6 (strip_cr (slice_to nl (buf st)))) <> lit "[DONE]" ->
  parse (trim (slice_from 6 (strip_cr (slice_to nl (buf st))))) = None ->
  lines st = State (strip_cr (slice_to nl (buf st)) ++ [LF]
                      ++ slice_from (nl + 1) (buf st))
                   (content st) (emitted st)
  /\ forall chunks,
       content (read_loop chunks (lines st)) = content st
       /\ emitted (read_loop chunks (lines st)) = emitted st.
Proof.
  intros Hi Hstart Hd Hp.
  destruct (indexOf_Some _ _ _ Hi) as [Hsplit Hnone].
  apply strip_cr_no_LF in Hnone. fold (slice_to nl (buf st)) in Hnone.
  set (line := strip_cr (slice_to nl (buf st))) in *.
  pose proof (startsWith_split _ _ Hstart) as Hline.
  change (skipn (List.length (lit "data: ")) line) with (slice_from 6 line) in Hline.
  set (t := slice_from 6 line) in *.
  assert (Hnt : indexOf LF t = None).
  { rewrite Hline in Hnone. now apply indexOf_app_None_inv in Hnone. }
  assert (Htry : try_block (trim t) (content st) = None).
  { unfold try_block. now rewrite Hp. }
  assert (Hbody : body nl st
                  = Rebuffer (State (line ++ [LF] ++ slice_from (nl + 1) (buf st))
                                    (content st) (emitted st))).
  { unfold body. fold (strip_cr (slice_to nl (buf st))). fold line. fold t.
    rewrite Hstart. rewrite Hline at 1 2.
    change (startsWith (lit ":") (lit "data: " ++ t)) with false.
    destruct (trim (lit "data: " ++ t)) eqn:Hf3;
      [now apply trim_data_prefix in Hf3|].
    cbn [negb orb].
    destruct (text_eqb (trim t) (lit "[DONE]")) eqn:He;
      [now apply text_eqb_true in He|].
    now rewrite Htry. }
  assert (Hlines : lines st
                   = State (line ++ [LF] ++ slice_from (nl + 1) (buf st))
                           (content st) (emitted st)).
  { rewrite lines_unfold, Hi, Hbody. reflexivity. }
  split; [exact Hlines|].
  intros chunks. rewrite Hlines.
  destruct (blocked_forever chunks
              (State (line ++ [LF] ++ slice_from (nl + 1) (buf st))
                     (content st) (emitted st))) as (_ & Hc & He).
  - exists t, (slice_from (nl + 1) (buf st)). cbn [buf content].
    rewrite Hline at 1. rewrite <- app_assoc. auto.
  - auto.
Qed.

(** ** Concrete streams *)

Definition quoted (s : text) : text := [34%N] ++ s ++ [34%N].

(** A data line whose payload is the usual envelope, an object with
    [choices], holding one choice with a [delta] whose [content] is the
    string [c], and its line feed. *)
Definition delta_line (c : text) : text :=
  lit "data: {" ++ quoted (lit "choices") ++ lit ":[{" ++ quoted (lit "delta")
  ++ lit ":{" ++ quoted (lit "content") ++ lit ":" ++ quoted c ++ lit "}}]}"
  ++ [LF].

Definition sentinel_line : text := lit "data: [DONE]" ++ [LF].

(** The same event over two lines: the JSON value is broken after
    the colon that follows [choices]. *)
Definition broken_line_1 : text :=
  lit "data: {" ++ quoted (lit "choices") ++ lit ":" ++ [LF].

Definition broken_line_2 (c : text) : text :=
  lit "[{" ++ quoted (lit "delta") ++ lit ":{" ++ quoted (lit "content")
  ++ lit ":" ++ quoted c ++ lit "}}]}" ++ [LF].

(** Scenario A of the specification. *)
Example scenario_A :
  assemble [delta_line (lit "Hel"); delta_line (lit "lo"); sentinel_line]
  = State [] (lit "Hello") [lit "Hel"; lit "Hello"].
Proof. vm_compute. reflexivity. Qed.

(** A line split inside its JSON value waits in the buffer for
    its end. *)
Example split_inside_json :
  assemble [firstn 20 (delta_line (lit "Hello")); skipn 20 (delta_line (lit "Hello"))]
  = State [] (lit "Hello") [lit "Hello"].
Proof. vm_compute. reflexivity. Qed.

Lemma unparsed_line_witness :
  lines (State (broken_line_1 ++ delta_line (lit "Y")) (lit "so far") [lit "so far"])
  = State (broken_line_1 ++ delta_line (lit "Y")) (lit "so far") [lit "so far"]
  /\ forall chunks,
       content (read_loop chunks
                  (lines (State (broken_line_1 ++ delta_line (lit "Y"))
                                (lit "so far") [lit "so far"])))
       = lit "so far"
       /\ emitted (read_loop chunks
                     (lines (State (broken_line_1 ++ delta_line (lit "Y"))
                                   (lit "so far") [lit "so far"])))
          = [lit "so far"].
Proof.
  apply (unparsed_line_is_rebuffered_and_blocks
           (State (broken_line_1 ++ delta_line (lit "Y")) (lit "so far") [lit "so far"])
           17).
  - vm_compute. reflexivity.
  - vm_compute. reflexivity.
  - vm_compute. discriminate.
  - vm_compute. reflexivity.
Defined.

(** C7.  The [catch] puts an unparsed line back to try it again with
    more data, but the retry cannot succeed.  A JSON payload sent over
    two lines is never put together again: its first line is put back
    with its line feed and blocks the buffer, so neither its own delta
    ([X]) nor that of the well-formed line after it ([Y]) reaches the
    accumulated response, although the same line delivers [Y] on a
    stream of its own.  The stream ends with its data still in the
    buffer: stream data is dropped without an error. *)
Lemma multi_line_payload_is_dropped :
  assemble [broken_line_1] = State broken_line_1 [] []
  /\ assemble [broken_line_1; broken_line_2 (lit "X"); delta_line (lit "Y")]
     = State (broken_line_1 ++ broken_line_2 (lit "X") ++ delta_line (lit "Y")) [] []
  /\ assemble [delta_line (lit "Y")] = State [] (lit "Y") [lit "Y"].
Proof. vm_compute. auto. Qed.

(** C1.  The sentinel ends the inner loop only.  Lines that follow it
    are appended as soon as another chunk arrives, whether they come in
    that later chunk or were left in the buffer by the chunk that carried
    the sentinel. *)
Theorem content_is_appended_after_the_sentinel :
  assemble [delta_line (lit "Hel"); sentinel_line; delta_line (lit "late")]
  = State [] (lit "Hellate") [lit "Hel"; lit "Hellate"]
  /\ assemble [delta_line (lit "Hel") ++ sentinel_line ++ delta_line (lit "late")]
     = State (delta_line (lit "late")) (lit "Hel") [lit "Hel"]
  /\ assemble [delta_line (lit "Hel") ++ sentinel_line ++ delta_line (lit "late");
               delta_line (lit "r")]
     = State [] (lit "Hellater") [lit "Hel"; lit "Hellate"; lit "Hellater"].
Proof. vm_compute. auto. Qed.

(** C6.  The same wire payload gives different results for different
    chunk boundaries when lines follow the sentinel: in one chunk they
    stay in the buffer, in two chunks they are appended. *)
Theorem chunking_changes_the_result_after_the_sentinel :
  content (assemble [sentinel_line ++ delta_line (lit "X")]) = []
  /\ content (assemble [sentinel_line; delta_line (lit "X")]) = lit "X".
Proof. vm_compute. auto. Qed.

(** ** Chunk boundaries, when the sentinel is not met *)

(** Whether the inner loop, started in [st], is left at the sentinel. *)
Fixpoint ends_at_sentinel_fuel (fuel : nat) (st : state) : bool :=
  match fuel with
  | O => false
  | S f =>
      match indexOf LF (buf st) with
      | None => false
      | Some nl =>
          match body nl st with
          | Next st' => ends_at_sentinel_fuel f st'
          | Stop _ => true
          | Rebuffer _ => false
          end
      end
  end.

Definition ends_at_sentinel (st : state) : bool :=
  ends_at_sentinel_fuel (List.length (buf st)) st.

Lemma ends_at_sentinel_fuel_stable (f1 f2 : nat) (st : state) :
  List.length (buf st) <= f1 -> List.length (buf st) <= f2 ->
  ends_at_sentinel_fuel f1 st = ends_at_sentinel_fuel f2 st.
Proof.
  revert f2 st. induction f1 as [|f1 IH]; intros f2 st H1 H2.
  - destruct (buf st) as [|x r] eqn:Hb; [|simpl in H1; lia].
    destruct f2; simpl; [reflexivity|]. now rewrite Hb.
  - destruct f2 as [|f2].
    + destruct (buf st) as [|x r] eqn:Hb; [|simpl in H2; lia].
      simpl. now rewrite Hb.
    + simpl. destruct (indexOf LF (buf st)) as [nl|] eqn:Hi; [|reflexivity].
      destruct (body nl st) as [st'|st'|st'] eqn:Hb; try reflexivity.
      pose proof (body_Next_shorter _ _ _ Hi Hb) as Hlt.
      apply IH; lia.
Qed.

Lemma ends_at_sentinel_unfold (st : state) :
  ends_at_sentinel st =
  match indexOf LF (buf st) with
  | None => false
  | Some nl =>
      match body nl st with
      | Next st' => ends_at_sentinel st'
      | Stop _ => true
      | Rebuffer _ => false
      end
  end.
Proof.
  unfold ends_at_sentinel at 1.
  destruct (buf st) as [|x r] eqn:Hb.
  - reflexivity.
  - cbn [List.length ends_at_sentinel_fuel]. rewrite Hb.
    destruct (indexOf LF (x :: r)) as [nl|] eqn:Hi; [|reflexivity].
    rewrite <- Hb in *.
    destruct (body nl st) as [st'|st'|st'] eqn:Hbody; try reflexivity.
    pose proof (body_Next_shorter _ _ _ Hi Hbody) as Hlt.
    rewrite Hb in Hlt. simpl in Hlt.
    apply ends_at_sentinel_fuel_stable; lia.
Qed.

(** Text appended to the buffer does not change a turn of the loop. *)
Lemma body_with_more (nl : nat) (st : state) (x : text) :
  nl < List.length (buf st) ->
  body nl (with_more x st) = flow_map (with_more x) (body nl st).
Proof.
  intros Hlt. unfold body, with_more. cbn [buf content emitted].
  assert (H1 : slice_to nl (buf st ++ x) = slice_to nl (buf st)).
  { unfold slice_to. rewrite firstn_app.
    replace (nl - List.length (buf st)) with 0 by lia.
    simpl. apply app_nil_r. }
  assert (H2 : slice_from (nl + 1) (buf st ++ x) = slice_from (nl + 1) (buf st) ++ x).
  { unfold slice_from. rewrite skipn_app.
    replace (nl + 1 - List.length (buf st)) with 0 by lia. reflexivity. }
  rewrite H1, H2.
  repeat match goal with
         | |- context [if ?c then _ else _] => destruct c
         end; try reflexivity;
    (destruct (try_block _ _) as [[acc|]|]; cbn [flow_map buf content emitted];
     try reflexivity; now rewrite <- !app_assoc).
Qed.

(** Two states that the rest of the stream cannot tell apart. *)
Definition alike (a b : state) : Prop :=
  content a = content b /\ emitted a = emitted b
  /\ (buf a = buf b \/ (blocked a /\ blocked b)).

Lemma alike_refl (a : state) : alike a a.
Proof. unfold alike. auto. Qed.

Lemma blocked_same (a b : state) :
  buf a = buf b -> content a = content b -> blocked b -> blocked a.
Proof.
  intros Hb Hc (t & rest & H). exists t, rest. now rewrite Hb, Hc.
Qed.

Lemma alike_trans (a b c : state) : alike a b -> alike b c -> alike a c.
Proof.
  intros (H1 & H2 & H3) (K1 & K2 & K3). unfold alike.
  split; [congruence|]. split; [congruence|].
  destruct H3 as [H3|[Ha Hb]], K3 as [K3|[Kb Kc]].
  - left. congruence.
  - right. split; [|exact Kc]. eapply blocked_same; eassumption.
  - right. split; [exact Ha|].
    eapply blocked_same; [symmetry; exact K3|symmetry; exact K1|exact Hb].
  - auto.
Qed.

Lemma alike_on_chunk (a b : state) (x : text) :
  alike a b -> alike (on_chunk a x) (on_chunk b x).
Proof.
  intros (Hc & He & [Hb|[Ba Bb]]).
  - destruct a, b. simpl in *. subst. apply alike_refl.
  - destruct (blocked_on_chunk a x Ba) as (Ba' & Hca & Hea).
    destruct (blocked_on_chunk b x Bb) as (Bb' & Hcb & Heb).
    unfold alike. rewrite Hca, Hea, Hcb, Heb. auto.
Qed.

Lemma with_more_blocked (x : text) (st : state) :
  blocked st -> blocked (with_more x st).
Proof.
  intros (t & rest & Hb & H). exists t, (rest ++ x).
  unfold with_more. cbn [buf content]. rewrite Hb.
  rewrite <- !app_assoc, <- app_comm_cons. auto.
Qed.

Lemma body_Rebuffer_blocked (nl : nat) (st st' : state) :
  indexOf LF (buf st) = Some nl ->
  body nl st = Rebuffer st' ->
  blocked st' /\ content st' = content st /\ emitted st' = emitted st.
Proof.
  intros Hi Hb.
  destruct (indexOf_Some _ _ _ Hi) as [_ Hnone].
  apply strip_cr_no_LF in Hnone. fold (slice_to nl (buf st)) in Hnone.
  unfold body in Hb. fold (strip_cr (slice_to nl (buf st))) in Hb.
  set (line := strip_cr (slice_to nl (buf st))) in *.
  destruct (startsWith (lit "data: ") line) eqn:Hstart; [|discriminate].
  cbn [negb orb] in Hb.
  destruct (startsWith (lit ":") line || _)%bool; [discriminate|].
  destruct (text_eqb _ _) eqn:He; [discriminate|].
  destruct (try_block _ _) as [[acc|]|] eqn:Ht; try discriminate.
  injection Hb as <-. split; [|auto].
  pose proof (startsWith_split _ _ Hstart) as Hline.
  change (skipn (List.length (lit "data: ")) line) with (slice_from 6 line) in Hline.
  exists (slice_from 6 line), (slice_from (nl + 1) (buf st)). cbn [buf content].
  split; [rewrite Hline at 1; now rewrite <- app_assoc|].
  split; [rewrite Hline in Hnone; now apply indexOf_app_None_inv in Hnone|].
  split; [|exact Ht].
  intros E. apply text_eqb_true in E. congruence.
Qed.

(** Draining the buffer before more text arrives, or after, leads to
    states that are alike, unless the sentinel is met. *)
Lemma lines_then_more (k : nat) (st : state) (x : text) :
  List.length (buf st) <= k ->
  ends_at_sentinel (with_more x st) = false ->
  alike (lines (with_more x (lines st))) (lines (with_more x st))
  /\ ends_at_sentinel st = false.
Proof.
  revert st. induction k as [|k IH]; intros st Hk Hs.
  - destruct st as [b c e]. simpl in Hk. destruct b; [|simpl in Hk; lia].
    split; [apply alike_refl|reflexivity].
  - rewrite (lines_unfold st), (ends_at_sentinel_unfold st).
    destruct (indexOf LF (buf st)) as [nl|] eqn:Hi.
    + pose proof (indexOf_lt _ _ _ Hi) as Hlt.
      rewrite (lines_unfold (with_more x st)).
      rewrite (ends_at_sentinel_unfold (with_more x st)) in Hs.
      assert (Hi' : indexOf LF (buf (with_more x st)) = Some nl)
        by (apply indexOf_app_Some; exact Hi).
      rewrite Hi' in *. rewrite body_with_more in * by exact Hlt.
      destruct (body nl st) as [st'|st'|st'] eqn:Hb; cbn [flow_map] in *.
      * apply IH; [|exact Hs].
        pose proof (body_Next_shorter _ _ _ Hi Hb). lia.
      * discriminate.
      * destruct (body_Rebuffer_blocked _ _ _ Hi Hb) as (Hbl & Hc & He).
        split; [|reflexivity].
        destruct (blocked_lines (with_more x st') (with_more_blocked x st' Hbl))
          as (Hbl' & Hc' & He').
        unfold alike. rewrite Hc', He'.
        split; [reflexivity|]. split; [reflexivity|].
        right. split; [exact Hbl'|]. now apply with_more_blocked.
    + split; [apply alike_refl|reflexivity].
Qed.

Lemma assemble_snoc (chunks : list text) (c : text) :
  assemble (chunks ++ [c]) = on_chunk (assemble chunks) c.
Proof. unfold assemble. now rewrite read_loop_app. Qed.

Lemma chunks_alike_one_chunk (chunks : list text) :
  ends_at_sentinel (State (List.concat chunks) [] []) = false ->
  alike (assemble chunks) (lines (State (List.concat chunks) [] [])).
Proof.
  induction chunks as [|c r IH] using rev_ind; intros Hs.
  - apply alike_refl.
  - rewrite concat_app in Hs |- *. simpl in Hs |- *.
    rewrite app_nil_r in Hs |- *.
    change (State (List.concat r ++ c) [] [])
      with (with_more c (State (List.concat r) [] [])) in Hs |- *.
    destruct (lines_then_more _ _ c (le_n _) Hs) as [Hal Hs'].
    rewrite assemble_snoc.
    eapply alike_trans; [|exact Hal].
    apply (alike_on_chunk _ _ c (IH Hs')).
Qed.

(** X1.  Chunk boundaries do not matter as long as the sentinel is not met:
    when the inner loop, run on the whole payload at once, is not left at
    the sentinel, every way of cutting the payload into chunks gives the
    same accumulated response and the same snapshots. *)
Theorem chunking_is_immaterial_without_sentinel (chunks : list text) :
  ends_at_sentinel (State (List.concat chunks) [] []) = false ->
  content (assemble chunks) = content (assemble [List.concat chunks])
  /\ emitted (assemble chunks) = emitted (assemble [List.concat chunks]).
Proof.
  intros Hs. destruct (chunks_alike_one_chunk chunks Hs) as (Hc & He & _).
  change (assemble [List.concat chunks]) with (lines (State (List.concat chunks) [] [])).
  auto.
Qed.

Lemma chunking_is_immaterial_witness :
  content (assemble [firstn 20 (delta_line (lit "Hello")); skipn 20 (delta_line (lit "Hello"))])
  = content (assemble [List.concat [firstn 20 (delta_line (lit "Hello"));
                               skipn 20 (delta_line (lit "Hello"))]])
  /\ emitted (assemble [firstn 20 (delta_line (lit "Hello")); skipn 20 (delta_line (lit "Hello"))])
     = emitted (assemble [List.concat [firstn 20 (delta_line (lit "Hello"));
                                  skipn 20 (delta_line (lit "Hello"))]]).
Proof.
  apply (chunking_is_immaterial_without_sentinel
           [firstn 20 (delta_line (lit "Hello")); skipn 20 (delta_line (lit "Hello"))]).
  vm_compute. reflexivity.
Defined.

End AssemblerFacts.

(** * Properties of the presentation player *)

Section PlayerFacts.

Import Player.

Variable slides : list Slide.

(** Unfolds the callbacks and the field updates, leaving the tests on
    slides and numbers as they are. *)
Ltac player_cbv :=
  cbv beta iota zeta delta
    [step handle act effects speakSlide stopSpeech goToSlide handlePlay
     handlePause handleStop toggleMute tick advance onend onerror
     resetControlsTimer handleKey option_map
     set_currentSlide set_isPlaying set_isMuted set_slideProgress
     set_showControls set_intervalRef set_startTimeRef set_durationRef
     set_controlsTimerRef set_speaking set_pending
     currentSlide isPlaying isMuted slideProgress showControls intervalRef
     startTimeRef durationRef controlsTimerRef speaking pending].

Ltac player_step :=
  player_cbv; rewrite ?Z.eqb_refl, ?xorb_nilpotent; cbn [xorb negb orb andb];
  rewrite ?andb_false_r, ?andb_true_r, ?orb_false_r; cbn [xorb negb orb andb].

(** ** Narration always starts *)

(** The state in which [speakSlide] leaves the player. *)
Definition spoken (now index : Z) (s : state) : state :=
  let fallback :=
    (isMuted s || match slide_at slides index with None => true | Some _ => false end)%bool in
  State (currentSlide s) (isPlaying s) (isMuted s) 0%Q (showControls s)
        (Some (if fallback then FallbackTick index else SpeechTick))
        now
        (if fallback then 4000%Q
         else match slide_at slides index with
              | Some sl => estimatedMs (narration sl)
              | None => 4000%Q
              end)
        (controlsTimerRef s)
        (if fallback then None else Some index)
        (pending s).

(** The guard of line 49 covers the lookup of line 72: [speakSlide]
    never throws. *)
Lemma speakSlide_spoken (now index : Z) (s : state) :
  speakSlide slides now index s = Some (spoken now index s).
Proof.
  unfold speakSlide, spoken. destruct s as [cs pl mu pr sh iv st du ct sp pe].
  cbn. destruct mu; cbn; [reflexivity|].
  destruct (slide_at slides index); reflexivity.
Qed.

Lemma effects_same (now : Z) (s : state) : effects slides now s s = Some s.
Proof.
  unfold effects. rewrite Z.eqb_refl, !xorb_nilpotent. reflexivity.
Qed.

Lemma goToSlide_total (now i : Z) (s : state) :
  exists s', goToSlide slides now i s = Some s'.
Proof.
  unfold goToSlide.
  destruct ((i <? 0)%Z || (slides_length slides <=? i)%Z)%bool; [eauto|].
  destruct (isPlaying _); [|eauto].
  rewrite speakSlide_spoken. eauto.
Qed.

Lemma handle_total (now : Z) (e : Event) (s : state) :
  exists s', handle slides now e s = Some s'.
Proof.
  assert (Hact : forall a, exists s', act slides now a s = Some s').
  { intros []; simpl; eauto using goToSlide_total. }
  destruct e as [a|a|k| | |n| | |]; simpl; eauto.
  - destruct (Hact a) as [s' ->]. simpl. eauto.
  - destruct (nth_error (pending s) n); eauto.
  - destruct (controlsTimerRef s); eauto.
Qed.

Lemma effects_total (now : Z) (old new : state) :
  exists s', effects slides now old new = Some s'.
Proof.
  unfold effects.
  destruct (_ && isPlaying new)%bool.
  - rewrite speakSlide_spoken. destruct (xorb _ _); eauto.
  - destruct (xorb _ _); eauto.
Qed.

(** No event makes a callback or an effect throw. *)
Lemma step_total (now : Z) (e : Event) (s : state) :
  exists s', step slides now e s = Some s'.
Proof.
  unfold step. destruct (handle_total now e s) as [s' ->].
  apply effects_total.
Qed.

Lemma run_total (evs : list (Z * Event)) (s : state) :
  exists s', run slides evs s = Some s'.
Proof.
  revert s. induction evs as [|[now e] r IH]; intros s; simpl; [eauto|].
  destruct (step_total now e s) as [s' ->]. apply IH.
Qed.

(** ** Navigation *)

(** C8.  [goToSlide(i)] with [i < 0] or [i >= slides.length] returns at
    its guard: the call, and the render after it, leave every component
    of the state as it was (state, refs, timers, utterance).  With [i] in
    range the player is on slide [i] with progress 0 afterwards. *)
Theorem goToSlide_bounds (now : Z) (s : state) (i : Z) :
  ((i < 0 \/ slides_length slides <= i)%Z ->
   goToSlide slides now i s = Some s
   /\ step slides now (Call (GoToSlide i)) s = Some s)
  /\ ((0 <= i < slides_length slides)%Z ->
      exists s', step slides now (Call (GoToSlide i)) s = Some s'
                 /\ currentSlide s' = i /\ slideProgress s' = 0%Q).
Proof.
  split.
  - intros Hout.
    assert (Hg : goToSlide slides now i s = Some s).
    { unfold goToSlide.
      destruct (Z.ltb_spec i 0); [reflexivity|].
      destruct (Z.leb_spec (slides_length slides) i); [reflexivity|lia]. }
    split; [exact Hg|].
    unfold step. cbn [handle act]. rewrite Hg. apply effects_same.
  - intros Hin. unfold step. cbn [handle act]. unfold goToSlide.
    destruct (Z.ltb_spec i 0); [lia|].
    destruct (Z.leb_spec (slides_length slides) i); [lia|].
    cbn [orb]. destruct s as [cs pl mu pr sh iv st du ct sp pe].
    destruct pl, mu; player_cbv; destruct (slide_at slides i) eqn:E;
      cbn [xorb negb orb andb]; destruct (cs =? i)%Z;
      cbn [xorb negb orb andb]; rewrite ?E;
      eexists; (split; [reflexivity|split; reflexivity]).
Qed.

(** ** Pause, play, narration events *)

(** C3, as amended.  [pause()] stops playing, cancels the utterance and
    clears the interval without touching [slideProgress].  A later
    [play()] starts the current slide again from its beginning: the effect
    calls [speakSlide], which resets [slideProgress] to 0, takes the time
    of the call as the new start time and hands a new utterance to the
    engine (or starts the fallback interval); every tick after that
    measures the time elapsed since the call of [play()]. *)
Theorem pause_freezes_and_play_restarts (t1 t2 : Z) (s : state) :
  exists s1 s2,
    step slides t1 (Call Pause) s = Some s1
    /\ slideProgress s1 = slideProgress s
    /\ isPlaying s1 = false
    /\ currentSlide s1 = currentSlide s
    /\ intervalRef s1 = None
    /\ speaking s1 = None
    /\ step slides t2 (Call Play) s1 = Some s2
    /\ isPlaying s2 = true
    /\ currentSlide s2 = currentSlide s
    /\ slideProgress s2 = 0%Q
    /\ startTimeRef s2 = t2
    /\ speaking s2
       = (if (isMuted s
              || match slide_at slides (currentSlide s) with
                 | None => true
                 | Some _ => false
                 end)%bool
          then None else Some (currentSlide s))
    /\ forall t3, exists s3,
         step slides t3 Tick s2 = Some s3
         /\ slideProgress s3 = Qmin (inject_Z (t3 - t2) / durationRef s2) 1.
Proof.
  destruct s as [cs pl mu pr sh iv st du ct sp pe].
  destruct pl, mu, (slide_at slides cs) eqn:E;
    do 2 eexists;
    repeat (split; [first [reflexivity | player_step; rewrite ?E; reflexivity]|]);
    intros t3; player_cbv; unfold progress_at; cbn [startTimeRef durationRef];
    try destruct (Qle_bool 1 _);
    eexists; (split; [player_step; reflexivity|reflexivity]).
Qed.

(** C4, as amended.  When the utterance reports an error, [onerror]
    clears the interval and sets [isPlaying] to false.  The player stays
    on its slide with the progress it had; no auto-advance is scheduled
    and nothing is thrown. *)
Theorem narration_error_halts_playback (now i : Z) (s : state) :
  speaking s = Some i ->
  exists s',
    step slides now SpeechError s = Some s'
    /\ isPlaying s' = false
    /\ currentSlide s' = currentSlide s
    /\ slideProgress s' = slideProgress s
    /\ intervalRef s' = None
    /\ speaking s' = None
    /\ pending s' = pending s.
Proof.
  destruct s as [cs pl mu pr sh iv st du ct sp pe]. cbn [speaking].
  intros ->. destruct pl; eexists;
    repeat (split; [first [reflexivity | player_step; reflexivity]|]);
    reflexivity.
Qed.

(** ** Slide completion *)




End PlayerFacts.

(** ** Concrete presentations *)

Section PlayerScenarios.

Import Player.

Definition a_slide (words : text) : Slide :=
  Build_Slide (lit "Title") [lit "point"] words (lit "green").

Definition three_slides : list Slide :=
  [a_slide (lit "one two three"); a_slide (lit "four"); a_slide (lit "five six")].

(** The player on the first of three slides, narrating aloud since
    time 0. *)
Definition narrating_first : state :=
  State 0 true false 0 true (Some SpeechTick) 0 3000 true (Some 0%Z) [].

Example narrating_first_reached :
  run three_slides [(0%Z, Call Play)] init = Some narrating_first.
Proof. vm_compute. reflexivity. Qed.

Lemma goToSlide_bounds_witness :
  (goToSlide three_slides 0 3 narrating_first = Some narrating_first
   /\ step three_slides 0 (Call (GoToSlide 3)) narrating_first = Some narrating_first)
  /\ exists s', step three_slides 0 (Call (GoToSlide 1)) narrating_first = Some s'
                /\ currentSlide s' = 1%Z /\ slideProgress s' = 0%Q.
Proof.
  split.
  - apply (goToSlide_bounds three_slides 0 narrating_first 3).
    right. unfold slides_length. simpl. lia.
  - apply (goToSlide_bounds three_slides 0 narrating_first 1).
    unfold slides_length. simpl. lia.
Defined.

Lemma narration_error_witness :
  exists s',
    step three_slides 1600 SpeechError narrating_first = Some s'
    /\ isPlaying s' = false
    /\ currentSlide s' = currentSlide narrating_first
    /\ slideProgress s' = slideProgress narrating_first
    /\ intervalRef s' = None
    /\ speaking s' = None
    /\ pending s' = pending narrating_first.
Proof.
  apply (narration_error_halts_playback three_slides 1600 0 narrating_first).
  reflexivity.
Defined.



(** C3, the claim as stated fails.  One slide, narrated aloud for an
    estimated 3000 ms.  Paused at 1600 ms with progress 1500/3000, then
    played at 5000 ms: the progress is 0 again, and the tick at 5050 ms
    shows 50/3000, the time since [play()], where a resumed narration
    would show 1550/3000. *)
Lemma play_after_pause_starts_over :
  run [a_slide (lit "one two three")]
      [(0, Call Play); (1500, Tick); (1600, Call Pause)]%Z init
  = Some (State 0 false false (1500 # 3000) true None 0 3000 false None [])
  /\ run [a_slide (lit "one two three")]
         [(0, Call Play); (1500, Tick); (1600, Call Pause); (5000, Call Play)]%Z init
     = Some (State 0 true false 0 true (Some SpeechTick) 5000 3000 true (Some 0%Z) [])
  /\ run [a_slide (lit "one two three")]
         [(0, Call Play); (1500, Tick); (1600, Call Pause); (5000, Call Play);
          (5050, Tick)]%Z init
     = Some (State 0 true false (50 # 3000) true (Some SpeechTick) 5000 3000 true
                   (Some 0%Z) [])
  /\ ~ (0 == 1500 # 3000)%Q.
Proof.
  repeat (split; [vm_compute; reflexivity|]). intros H. discriminate H.
Qed.

(** C4, the claim as stated fails.  On the first of three slides the
    end of the narration leads to the second slide, still playing; an
    error of the narration leaves the player on the first slide, not
    playing. *)
Lemma narration_error_is_not_completion :
  run three_slides [(0, Call Play); (1600, SpeechEnd); (2100, Advance 0)]%Z init
  = Some (State 1 true false 0 true (Some SpeechTick) 2100 3000 true (Some 1%Z) [])
  /\ run three_slides [(0, Call Play); (1600, SpeechError)]%Z init
     = Some (State 0 false false 0 true None 0 3000 false None []).
Proof. split; vm_compute; reflexivity. Qed.

(** C10.  With no slides the lookup of the current slide is undefined
    whatever the index, the component renders nothing, every
    [goToSlide(i)] returns at its guard without a change, and no sequence
    of events (controls, keys, pointer, timers, narration events) throws:
    every run ends in a state. *)
Theorem empty_presentation_is_safe (s : state) :
  slide_at [] (currentSlide s) = None
  /\ render [] s = Null
  /\ (forall now i, goToSlide [] now i s = Some s)
  /\ (forall evs, exists s', run [] evs s = Some s').
Proof.
  assert (Hnone : forall i, slide_at [] i = None).
  { intros i. unfold slide_at. destruct (i <? 0)%Z; [reflexivity|].
    now destruct (Z.to_nat i). }
  split; [apply Hnone|].
  split; [unfold render; now rewrite Hnone|].
  split.
  - intros now i. unfold goToSlide.
    change (slides_length []) with 0%Z.
    destruct (Z.ltb_spec i 0); [reflexivity|].
    destruct (Z.leb_spec 0 i); [reflexivity|lia].
  - intros evs. apply run_total.
Qed.

End PlayerScenarios.

(** * Properties of the request failure branches *)

Section RequestFacts.

Import Request.





End RequestFacts.

(** * Further properties of the stream assembler *)

Section AssemblerMore.

Import Assembler.

(** ** Well-formed event lines *)

(** A code unit that stands for itself inside a JSON string: no control
    character, no quotation mark, no backslash. *)
Definition plain (c : N) : bool :=
  (N.leb 32 c && negb (N.eqb c 34) && negb (N.eqb c 92))%bool.

Lemma parse_string_body_plain (s rest : text) :
  forallb plain s = true ->
  parse_string_body (s ++ 34%N :: rest) = Some (s, rest).
Proof.
  induction s as [|c s IH]; intros H.
  - reflexivity.
  - simpl in H. apply andb_true_iff in H as [Hc Hs].
    unfold plain in Hc. apply andb_true_iff in Hc as [Hc H92].
    apply andb_true_iff in Hc as [H32 H34].
    apply negb_true_iff in H92, H34.
    cbn [app parse_string_body]. rewrite H34, H92.
    assert (Hlt : N.ltb c 32 = false).
    { apply N.ltb_ge. now apply N.leb_le. }
    rewrite Hlt, (IH Hs). reflexivity.
Qed.

Definition envelope (c : text) : text :=
  lit "{" ++ quoted (lit "choices") ++ lit ":[{" ++ quoted (lit "delta")
  ++ lit ":{" ++ quoted (lit "content") ++ lit ":" ++ quoted c ++ lit "}}]}".

Definition envelope_value (c : text) : value :=
  JObject [(lit "choices",
            JArray [JObject [(lit "delta", JObject [(lit "content", JString c)])]])].

Lemma parse_value_envelope (f : nat) (s rest : text) :
  forallb plain s = true ->
  parse_value (9 + f) (envelope s ++ rest) = Some (envelope_value s, rest).
Proof.
  intros Hs. unfold envelope, quoted.
  repeat rewrite <- app_assoc.
  cbn. rewrite (parse_string_body_plain s _ Hs). cbn. reflexivity.
Qed.

Lemma parse_envelope (s : text) :
  forallb plain s = true -> parse (envelope s) = Some (envelope_value s).
Proof.
  intros Hs. unfold parse.
  assert (Hf : exists f, 2 * List.length (envelope s) + 2 = 9 + f).
  { exists (2 * List.length (envelope s) + 2 - 9).
    assert (4 <= List.length (envelope s)).
    { unfold envelope, quoted. rewrite !length_app. simpl List.length. lia. }
    lia. }
  destruct Hf as [f ->].
  rewrite <- (app_nil_r (envelope s)) at 1.
  rewrite (parse_value_envelope f s [] Hs). reflexivity.
Qed.


Lemma indexOf_app_None (c : N) (a b : text) :
  indexOf c a = None -> indexOf c b = None -> indexOf c (a ++ b) = None.
Proof.
  intros Ha Hb. rewrite (indexOf_None_app c a b Ha), Hb. reflexivity.
Qed.

Lemma plain_no_LF (s : text) : forallb plain s = true -> indexOf LF s = None.
Proof.
  induction s as [|c s IH]; intros H; [reflexivity|].
  simpl in H. apply andb_true_iff in H as [Hc Hs].
  unfold plain in Hc. apply andb_true_iff in Hc as [Hc _].
  apply andb_true_iff in Hc as [H32 _]. apply N.leb_le in H32.
  simpl. destruct (N.eqb_spec c LF) as [->|_]; [unfold LF in H32; lia|].
  now rewrite (IH Hs).
Qed.

Definition envelope_pre : text :=
  lit "{" ++ quoted (lit "choices") ++ lit ":[{" ++ quoted (lit "delta")
  ++ lit ":{" ++ quoted (lit "content") ++ lit ":" ++ [34%N].

Definition envelope_post : text := [34%N] ++ lit "}}]}".

Lemma envelope_parts (s : text) : envelope s = envelope_pre ++ s ++ envelope_post.
Proof.
  unfold envelope, envelope_pre, envelope_post, quoted.
  repeat rewrite <- app_assoc. reflexivity.
Qed.

Lemma delta_line_envelope (s : text) :
  delta_line s = lit "data: " ++ envelope s ++ [LF].
Proof.
  unfold delta_line, envelope, quoted. repeat rewrite <- app_assoc. reflexivity.
Qed.

Lemma envelope_no_LF (s : text) :
  forallb plain s = true -> indexOf LF (envelope s) = None.
Proof.
  intros Hs. rewrite envelope_parts.
  apply indexOf_app_None; [reflexivity|].
  apply indexOf_app_None; [now apply plain_no_LF|reflexivity].
Qed.

(** [trim] leaves a text alone that starts and ends with something
    other than white space. *)
Lemma trimEnd_black (l : text) (b : N) :
  isWhite b = false -> trimEnd (l ++ [b]) = l ++ [b].
Proof.
  intros Hb. unfold trimEnd. rewrite rev_app_distr. simpl.
  rewrite Hb. simpl. now rewrite rev_involutive.
Qed.

Lemma trim_tight (a b : N) (m : text) :
  isWhite a = false -> isWhite b = false -> trim (a :: m ++ [b]) = a :: m ++ [b].
Proof.
  intros Ha Hb. unfold trim. cbn [trimStart]. rewrite Ha.
  apply (trimEnd_black (a :: m) b Hb).
Qed.

Lemma envelope_shape (s : text) :
  exists m, envelope s = 123%N :: m ++ [125%N].
Proof.
  rewrite envelope_parts.
  exists (tl envelope_pre ++ s ++ [34%N] ++ lit "}}]").
  unfold envelope_post. cbn [tl envelope_pre]. 
  change (lit "}}]}") with (lit "}}]" ++ [125%N]).
  repeat rewrite <- app_assoc. reflexivity.
Qed.

Lemma try_block_envelope (s acc : text) :
  forallb plain s = true -> s <> [] ->
  try_block (envelope s) acc = Some (Some (acc ++ s)).
Proof.
  intros Hs Hne. unfold try_block. rewrite (parse_envelope s Hs).
  unfold envelope_value.
  destruct s as [|c s]; [contradiction|]. vm_compute. reflexivity.
Qed.

Lemma try_block_envelope_empty (acc : text) :
  try_block (envelope []) acc = Some None.
Proof. vm_compute. reflexivity. Qed.

(** ** One turn of the loop, by the line it extracts *)

(** The body of the inner loop after the extraction of [line] and
    [rest]. *)
Definition body_line (line rest acc : text) (em : list text) : flow :=
  if (negb (startsWith (lit "data: ") line)
      || startsWith (lit ":") line
      || match trim line with [] => true | _ :: _ => false end)%bool
  then Next (State rest acc em)
  else
    let json := trim (slice_from 6 line) in
    if text_eqb json (lit "[DONE]")
    then Stop (State rest acc em)
    else
      match try_block json acc with
      | Some (Some acc') => Next (State rest acc' (em ++ [acc']))
      | Some None => Next (State rest acc em)
      | None => Rebuffer (State (line ++ [LF] ++ rest) acc em)
      end.

Lemma body_of_line (l rest acc : text) (em : list text) :
  body (List.length l) (State (l ++ LF :: rest) acc em)
  = body_line (strip_cr l) rest acc em.
Proof.
  unfold body, body_line, strip_cr. cbn [buf content emitted].
  now rewrite slice_to_line, slice_from_line.
Qed.

Lemma lines_of_line (l rest acc : text) (em : list text) :
  indexOf LF l = None ->
  lines (State (l ++ LF :: rest) acc em)
  = match body_line (strip_cr l) rest acc em with
    | Next st' => lines st'
    | Stop st' => st'
    | Rebuffer st' => st'
    end.
Proof.
  intros Hl. rewrite lines_unfold. cbn [buf].
  rewrite (indexOf_prefix LF l rest Hl). now rewrite body_of_line.
Qed.

Lemma ends_at_sentinel_of_line (l rest acc : text) (em : list text) :
  indexOf LF l = None ->
  ends_at_sentinel (State (l ++ LF :: rest) acc em)
  = match body_line (strip_cr l) rest acc em with
    | Next st' => ends_at_sentinel st'
    | Stop _ => true
    | Rebuffer _ => false
    end.
Proof.
  intros Hl. rewrite ends_at_sentinel_unfold. cbn [buf].
  rewrite (indexOf_prefix LF l rest Hl). now rewrite body_of_line.
Qed.

Lemma strip_cr_tight (l : text) (b : N) :
  N.eqb b CR = false -> strip_cr (l ++ [b]) = l ++ [b].
Proof.
  intros Hb. unfold strip_cr, endsWith1. rewrite rev_app_distr. simpl.
  now rewrite Hb.
Qed.

Lemma body_line_delta (s rest acc : text) (em : list text) :
  forallb plain s = true ->
  body_line (strip_cr (lit "data: " ++ envelope s)) rest acc em
  = match s with
    | [] => Next (State rest acc em)
    | _ :: _ => Next (State rest (acc ++ s) (em ++ [acc ++ s]))
    end.
Proof.
  intros Hs. destruct (envelope_shape s) as [m Hm].
  assert (Hstrip : strip_cr (lit "data: " ++ envelope s) = lit "data: " ++ envelope s).
  { rewrite Hm. change (lit "data: " ++ 123%N :: m ++ [125%N])
      with ((lit "data: " ++ 123%N :: m) ++ [125%N]).
    now apply strip_cr_tight. }
  rewrite Hstrip. unfold body_line.
  change (startsWith (lit "data: ") (lit "data: " ++ envelope s)) with true.
  change (startsWith (lit ":") (lit "data: " ++ envelope s)) with false.
  destruct (trim (lit "data: " ++ envelope s)) eqn:Ht;
    [now apply trim_data_prefix in Ht|].
  cbn [negb orb]. change (slice_from 6 (lit "data: " ++ envelope s)) with (envelope s).
  assert (Htrim : trim (envelope s) = envelope s).
  { rewrite Hm. now apply trim_tight. }
  rewrite Htrim.
  destruct (text_eqb (envelope s) (lit "[DONE]")) eqn:He.
  { apply text_eqb_true in He. rewrite Hm in He. discriminate He. }
  destruct s as [|c s].
  - now rewrite try_block_envelope_empty.
  - rewrite (try_block_envelope (c :: s) acc Hs); [reflexivity|discriminate].
Qed.

Lemma delta_line_no_LF (s : text) :
  forallb plain s = true -> indexOf LF (lit "data: " ++ envelope s) = None.
Proof.
  intros Hs. apply indexOf_app_None; [reflexivity|now apply envelope_no_LF].
Qed.

Lemma delta_line_split (s rest : text) :
  delta_line s ++ rest = (lit "data: " ++ envelope s) ++ LF :: rest.
Proof.
  rewrite delta_line_envelope. repeat rewrite <- app_assoc. reflexivity.
Qed.

(** The snapshots that the deltas [ss] produce on top of [acc]: one
    for every delta that is not empty. *)
Fixpoint snapshots (acc : text) (ss : list text) : list text :=
  match ss with
  | [] => []
  | [] :: r => snapshots acc r
  | (c :: s) :: r => (acc ++ c :: s) :: snapshots (acc ++ c :: s) r
  end.

Definition delta_lines (ss : list text) : text :=
  List.concat (List.map delta_line ss).

(** Deltas made of plain code units; a delta may be empty. *)
Definition plain_deltas (ss : list text) : Prop :=
  Forall (fun s => forallb plain s = true) ss.

Lemma lines_delta_lines (ss : list text) (tail acc : text) (em : list text) :
  plain_deltas ss ->
  lines (State (delta_lines ss ++ tail) acc em)
  = lines (State tail (acc ++ List.concat ss) (em ++ snapshots acc ss))
  /\ ends_at_sentinel (State (delta_lines ss ++ tail) acc em)
     = ends_at_sentinel (State tail (acc ++ List.concat ss) (em ++ snapshots acc ss)).
Proof.
  intros Hall. revert acc em.
  induction Hall as [|s ss Hs _ IH]; intros acc em.
  - unfold delta_lines. simpl. now rewrite !app_nil_r.
  - unfold delta_lines in *. cbn [List.map List.concat].
    rewrite <- app_assoc, delta_line_split.
    rewrite lines_of_line, ends_at_sentinel_of_line by now apply delta_line_no_LF.
    rewrite (body_line_delta s _ acc em Hs).
    destruct s as [|c s].
    + cbn [snapshots app]. apply IH.
    + destruct (IH (acc ++ c :: s) (em ++ [acc ++ c :: s])) as [IH1 IH2].
      cbn [snapshots]. rewrite IH1, IH2. now rewrite <- !app_assoc.
Qed.

(** ** Any chunking of a well-formed stream *)

(** When the loop is left at the sentinel, text that arrives later
    stays behind it in the buffer. *)
Lemma stop_keeps_more (k : nat) (st : state) (x : text) :
  List.length (buf st) <= k ->
  ends_at_sentinel st = true ->
  lines (with_more x st) = with_more x (lines st).
Proof.
  revert st. induction k as [|k IH]; intros st Hk Hs.
  - destruct st as [b c e]. simpl in Hk. destruct b; [|simpl in Hk; lia].
    discriminate Hs.
  - rewrite (ends_at_sentinel_unfold st) in Hs.
    rewrite (lines_unfold st), (lines_unfold (with_more x st)).
    destruct (indexOf LF (buf st)) as [nl|] eqn:Hi; [|discriminate].
    pose proof (indexOf_lt _ _ _ Hi) as Hlt.
    assert (Hi' : indexOf LF (buf (with_more x st)) = Some nl)
      by (apply indexOf_app_Some; exact Hi).
    rewrite Hi', body_with_more by exact Hlt.
    destruct (body nl st) as [st'|st'|st'] eqn:Hb; cbn [flow_map].
    + apply IH; [|exact Hs].
      pose proof (body_Next_shorter _ _ _ Hi Hb). lia.
    + reflexivity.
    + discriminate.
Qed.

(** As long as the sentinel is not met before more text arrives,
    draining the buffer first makes no difference. *)
Lemma lines_after_quiet (k : nat) (st : state) (x : text) :
  List.length (buf st) <= k ->
  ends_at_sentinel st = false ->
  alike (lines (with_more x (lines st))) (lines (with_more x st)).
Proof.
  revert st. induction k as [|k IH]; intros st Hk Hs.
  - destruct st as [b c e]. simpl in Hk. destruct b; [|simpl in Hk; lia].
    apply alike_refl.
  - rewrite (ends_at_sentinel_unfold st) in Hs. rewrite (lines_unfold st).
    destruct (indexOf LF (buf st)) as [nl|] eqn:Hi; [|apply alike_refl].
    pose proof (indexOf_lt _ _ _ Hi) as Hlt.
    rewrite (lines_unfold (with_more x st)).
    assert (Hi' : indexOf LF (buf (with_more x st)) = Some nl)
      by (apply indexOf_app_Some; exact Hi).
    rewrite Hi', body_with_more by exact Hlt.
    destruct (body nl st) as [st'|st'|st'] eqn:Hb; cbn [flow_map].
    + apply IH; [|exact Hs].
      pose proof (body_Next_shorter _ _ _ Hi Hb). lia.
    + discriminate.
    + destruct (body_Rebuffer_blocked _ _ _ Hi Hb) as (Hbl & Hc & He).
      destruct (blocked_lines (with_more x st') (with_more_blocked x st' Hbl))
        as (Hbl' & Hc' & He').
      unfold alike. rewrite Hc', He'.
      split; [reflexivity|]. split; [reflexivity|].
      right. split; [exact Hbl'|]. now apply with_more_blocked.
Qed.

Lemma not_blocked_empty (acc : text) (em : list text) :
  ~ blocked (State [] acc em).
Proof. intros (t & rest & Hb & _). discriminate Hb. Qed.

Lemma alike_drained (st : state) (acc : text) (em : list text) :
  alike st (State [] acc em) -> st = State [] acc em.
Proof.
  intros (Hc & He & [Hb|[_ Hbl]]).
  - destruct st. simpl in *. now subst.
  - now apply not_blocked_empty in Hbl.
Qed.

(** X2.  Whatever the chunk boundaries, a stream of well-formed data lines
    that closes without the sentinel leaves the deltas, in order, as the
    accumulated response, with one snapshot for every delta that is not
    empty, and an empty buffer. *)
Theorem well_formed_stream_any_chunking (ss : list text) (chunks : list text) :
  plain_deltas ss ->
  List.concat chunks = delta_lines ss ->
  assemble chunks = State [] (List.concat ss) (snapshots [] ss).
Proof.
  intros Hall Hcat.
  destruct (lines_delta_lines ss [] [] [] Hall) as [Hl Hs].
  rewrite app_nil_r in Hl, Hs. cbn [app] in Hl, Hs.
  apply alike_drained.
  replace (State [] (List.concat ss) (snapshots [] ss))
    with (lines (State (List.concat chunks) [] [])).
  - apply chunks_alike_one_chunk. now rewrite Hcat, Hs.
  - rewrite Hcat, Hl. reflexivity.
Qed.

Lemma sentinel_line_last (acc : text) (em : list text) :
  lines (State sentinel_line acc em) = State [] acc em.
Proof.
  unfold sentinel_line.
  change (lit "data: [DONE]" ++ [LF]) with (lit "data: [DONE]" ++ LF :: []).
  rewrite lines_of_line by reflexivity. reflexivity.
Qed.

(** X3.  The same with the sentinel as the last line of the stream, for
    every chunking whose last chunk is not empty: the sentinel may share
    its chunk with data lines or be cut in two. *)
Theorem well_formed_stream_with_sentinel
  (ss : list text) (pre : list text) (last : text) :
  plain_deltas ss ->
  last <> [] ->
  List.concat pre ++ last = delta_lines ss ++ sentinel_line ->
  assemble (pre ++ [last]) = State [] (List.concat ss) (snapshots [] ss).
Proof.
  intros Hall Hlast Hcat.
  destruct (lines_delta_lines ss sentinel_line [] [] Hall) as [Hl _].
  cbn [app] in Hl. rewrite sentinel_line_last in Hl.
  set (start := State (List.concat pre) [] []).
  assert (Hwhole : lines (with_more last start)
                   = State [] (List.concat ss) (snapshots [] ss)).
  { unfold with_more, start. cbn [buf content emitted]. now rewrite Hcat. }
  assert (Hquiet : ends_at_sentinel start = false).
  { destruct (ends_at_sentinel start) eqn:E; [|reflexivity].
    pose proof (stop_keeps_more _ start last (le_n _) E) as Hk.
    rewrite Hwhole in Hk. apply (f_equal buf) in Hk.
    unfold with_more in Hk. cbn [buf] in Hk.
    symmetry in Hk. apply app_eq_nil in Hk as [_ Hk]. contradiction. }
  apply alike_drained. rewrite <- Hwhole, assemble_snoc.
  eapply alike_trans.
  - apply alike_on_chunk. apply chunks_alike_one_chunk. exact Hquiet.
  - apply (lines_after_quiet _ start last (le_n _) Hquiet).
Qed.

(** ** Line endings and lines that are not data *)

(** X4.  A carriage return before the line feed is not part of the line:
    a line that ends in CR LF is handled as the same line ending
    in LF. *)
Theorem crlf_same_as_lf (l rest acc : text) (em : list text) :
  indexOf LF l = None ->
  endsWith1 CR l = false ->
  lines (State (l ++ CR :: LF :: rest) acc em)
  = lines (State (l ++ LF :: rest) acc em).
Proof.
  intros Hl Hcr.
  change (l ++ CR :: LF :: rest) with (l ++ [CR] ++ LF :: rest).
  rewrite app_assoc.
  rewrite !lines_of_line; try exact Hl.
  - assert (H1 : strip_cr (l ++ [CR]) = l).
    { unfold strip_cr, endsWith1, drop_last. rewrite rev_app_distr. simpl.
      apply removelast_last. }
    assert (H2 : strip_cr l = l) by (unfold strip_cr; now rewrite Hcr).
    now rewrite H1, H2.
  - apply indexOf_app_None; [exact Hl|reflexivity].
Qed.

(** X5.  A complete line that does not start with the data prefix (a blank
    line, a comment, another field of the event stream) is dropped
    without any effect. *)
Theorem non_data_lines_are_skipped (l rest acc : text) (em : list text) :
  indexOf LF l = None ->
  startsWith (lit "data: ") (strip_cr l) = false ->
  lines (State (l ++ LF :: rest) acc em) = lines (State rest acc em).
Proof.
  intros Hl Hd. rewrite lines_of_line by exact Hl.
  unfold body_line. now rewrite Hd.
Qed.

(** ** Payloads that parse and still throw *)

Lemma throwing_line_blocks (l rest acc : text) (em : list text) :
  indexOf LF l = None ->
  startsWith (lit "data: ") (strip_cr l) = true ->
  trim (slice_from 6 (strip_cr l)) <> lit "[DONE]" ->
  try_block (trim (slice_from 6 (strip_cr l))) acc = None ->
  lines (State (l ++ LF :: rest) acc em)
  = State (strip_cr l ++ [LF] ++ rest) acc em
  /\ forall chunks,
       content (read_loop chunks (State (strip_cr l ++ [LF] ++ rest) acc em)) = acc
       /\ emitted (read_loop chunks (State (strip_cr l ++ [LF] ++ rest) acc em)) = em.
Proof.
  intros Hl Hstart Hd Ht.
  pose proof (startsWith_split _ _ Hstart) as Hline.
  change (skipn (List.length (lit "data: ")) (strip_cr l))
    with (slice_from 6 (strip_cr l)) in Hline.
  assert (Hbody : body_line (strip_cr l) rest acc em
                  = Rebuffer (State (strip_cr l ++ [LF] ++ rest) acc em)).
  { unfold body_line. rewrite Hstart. rewrite Hline at 1 2.
    change (startsWith (lit ":") (lit "data: " ++ slice_from 6 (strip_cr l)))
      with false.
    destruct (trim (lit "data: " ++ slice_from 6 (strip_cr l))) eqn:Hf3;
      [now apply trim_data_prefix in Hf3|].
    cbn [negb orb].
    destruct (text_eqb _ (lit "[DONE]")) eqn:He;
      [now apply text_eqb_true in He|].
    now rewrite Ht. }
  split.
  - rewrite lines_of_line by exact Hl. now rewrite Hbody.
  - intros chunks.
    destruct (blocked_forever chunks (State (strip_cr l ++ [LF] ++ rest) acc em))
      as (_ & Hc & He); [|auto].
    exists (slice_from 6 (strip_cr l)), rest. cbn [buf content].
    split; [rewrite Hline at 1; now rewrite <- app_assoc|].
    split; [|auto].
    apply strip_cr_no_LF in Hl. rewrite Hline in Hl.
    now apply indexOf_app_None_inv in Hl.
Qed.

(** X6.  A payload that is the JSON value [null] parses, but reading
    [choices] from it throws inside the [try] block: the line is put back
    like one that does not parse, and from then on no chunk changes the
    accumulated response or adds a snapshot. *)
Theorem null_payload_blocks_the_stream (l rest acc : text) (em : list text) :
  indexOf LF l = None ->
  startsWith (lit "data: ") (strip_cr l) = true ->
  parse (trim (slice_from 6 (strip_cr l))) = Some JNull ->
  lines (State (l ++ LF :: rest) acc em)
  = State (strip_cr l ++ [LF] ++ rest) acc em
  /\ forall chunks,
       content (read_loop chunks (State (strip_cr l ++ [LF] ++ rest) acc em)) = acc
       /\ emitted (read_loop chunks (State (strip_cr l ++ [LF] ++ rest) acc em)) = em.
Proof.
  intros Hl Hstart Hp. apply throwing_line_blocks; try assumption.
  - intros E. rewrite E in Hp. vm_compute in Hp. discriminate Hp.
  - unfold try_block. now rewrite Hp.
Qed.

(** ** The last snapshot *)

Lemma last_snoc (l : list text) (x d : text) : List.last (l ++ [x]) d = x.
Proof. apply last_last. Qed.

Lemma body_last (nl : nat) (st : state) :
  content st = List.last (emitted st) [] ->
  content (flow_state (body nl st)) = List.last (emitted (flow_state (body nl st))) [].
Proof.
  intros H. unfold body.
  repeat match goal with
         | |- context [if ?c then _ else _] => destruct c
         end; try exact H;
    (destruct (try_block _ _) as [[acc|]|]; cbn [flow_state content emitted];
     try exact H; now rewrite last_snoc).
Qed.

Lemma lines_fuel_last (fuel : nat) (st : state) :
  content st = List.last (emitted st) [] ->
  content (lines_fuel fuel st) = List.last (emitted (lines_fuel fuel st)) [].
Proof.
  revert st. induction fuel as [|f IH]; intros st H; simpl; [exact H|].
  destruct (indexOf LF (buf st)) as [nl|]; [|exact H].
  pose proof (body_last nl st H) as Hb.
  destruct (body nl st) as [st'|st'|st']; simpl in Hb; try exact Hb.
  now apply IH.
Qed.

Lemma assemble_content_last (chunks : list text) :
  content (assemble chunks) = List.last (emitted (assemble chunks)) [].
Proof.
  unfold assemble. generalize init (eq_refl : content init = List.last (emitted init) []).
  induction chunks as [|c r IH]; intros st H; [exact H|].
  simpl. apply IH. unfold on_chunk, lines. now apply lines_fuel_last.
Qed.


End AssemblerMore.

(** * Further properties of the presentation player *)

Section PlayerMore.

Import Player.

Variable slides : list Slide.

Definition in_range (i : Z) : Prop := (0 <= i < slides_length slides)%Z.

(** Unfolds the callbacks and the field updates everywhere; then splits
    the goal along the tests that are left. *)
Ltac player_unfold :=
  cbv beta iota zeta delta
    [stopSpeech handlePlay handlePause handleStop toggleMute tick advance
     onend onerror resetControlsTimer spoken
     set_currentSlide set_isPlaying set_isMuted set_slideProgress
     set_showControls set_intervalRef set_startTimeRef set_durationRef
     set_controlsTimerRef set_speaking set_pending
     currentSlide isPlaying isMuted slideProgress showControls intervalRef
     startTimeRef durationRef controlsTimerRef speaking pending] in *.

Ltac split_goal :=
  repeat (match goal with
          | |- context [match ?x with _ => _ end] => is_var x; destruct x
          | |- context [orb ?x _] => is_var x; destruct x
          | |- context [negb ?x] => is_var x; destruct x
          | |- context [Qle_bool ?a ?b] => destruct (Qle_bool a b) eqn:?
          | |- context [Z.ltb ?a ?b] => destruct (Z.ltb a b) eqn:?
          | |- context [slide_at ?a ?b] => destruct (slide_at a b) eqn:?
          end; player_unfold; cbn [orb andb negb xorb]).

(** ** The shapes of a step *)

(** What a callback can make of the state [s] at time [now]. *)
Inductive handled (now : Z) (s : state) : state -> Prop :=
| handled_nothing : handled now s s
| handled_play : handled now s (handlePlay s)
| handled_pause : handled now s (handlePause s)
| handled_stop : handled now s (handleStop s)
| handled_mute : handled now s (toggleMute s)
| handled_goto (i : Z) :
    in_range i -> isPlaying s = false ->
    handled now s (set_currentSlide i (stopSpeech s))
| handled_goto_playing (i : Z) :
    in_range i -> isPlaying s = true ->
    handled now s (spoken slides now i (set_currentSlide i (stopSpeech s)))
| handled_tick : handled now s (tick now s)
| handled_advance (n : nat) (index : Z) :
    nth_error (pending s) n = Some index ->
    handled now s (advance slides index (set_pending (remove_nth n (pending s)) s))
| handled_hide :
    controlsTimerRef s = true ->
    handled now s (set_showControls false (set_controlsTimerRef false s))
| handled_end : handled now s (onend s)
| handled_error : handled now s (onerror s)
| handled_reset (s1 : state) :
    handled now s s1 -> handled now s (resetControlsTimer (isPlaying s) s1).

Lemma act_handled (now : Z) (a : Action) (s s' : state) :
  act slides now a s = Some s' -> handled now s s'.
Proof.
  destruct a as [| | |i|]; simpl; intros H;
    try (injection H as <-; constructor).
  unfold goToSlide in H.
  destruct (Z.ltb_spec i 0); [injection H as <-; constructor|].
  destruct (Z.leb_spec (slides_length slides) i); [injection H as <-; constructor|].
  cbn [orb] in H.
  assert (Hin : in_range i) by (unfold in_range; lia).
  destruct (isPlaying (set_currentSlide i (stopSpeech s))) eqn:Hp.
  - rewrite speakSlide_spoken in H. injection H as <-.
    apply handled_goto_playing; [exact Hin|]. now destruct s.
  - injection H as <-. apply handled_goto; [exact Hin|]. now destruct s.
Qed.

Lemma handle_handled (now : Z) (e : Event) (s s' : state) :
  handle slides now e s = Some s' -> handled now s s'.
Proof.
  destruct e as [a|a|k| | |n| | |]; cbn [handle]; intros H.
  - now apply act_handled in H.
  - destruct (act slides now a s) as [s1|] eqn:Ha; [|discriminate].
    injection H as <-. apply handled_reset. now apply act_handled in Ha.
  - exact (act_handled now (handleKey k s) s s' H).
  - injection H as <-. apply handled_reset. constructor.
  - injection H as <-. constructor.
  - destruct (nth_error (pending s) n) as [index|] eqn:Hn;
      injection H as <-; [now apply handled_advance|constructor].
  - destruct (controlsTimerRef s) eqn:Hc; injection H as <-;
      [now apply handled_hide|constructor].
  - injection H as <-. constructor.
  - injection H as <-. constructor.
Qed.

(** What the effects make of the state [new] that a callback left. *)
Inductive settled (now : Z) (old new : state) : state -> Prop :=
| settled_quiet :
    isPlaying old = isPlaying new -> settled now old new new
| settled_spoken :
    isPlaying new = true -> isPlaying old = true ->
    settled now old new (spoken slides now (currentSlide new) new)
| settled_started :
    isPlaying new = true -> isPlaying old = false ->
    settled now old new
      (resetControlsTimer true (spoken slides now (currentSlide new) new))
| settled_halted :
    isPlaying new = false -> isPlaying old = true ->
    settled now old new (resetControlsTimer false new).

Lemma effects_settled (now : Z) (old new s' : state) :
  effects slides now old new = Some s' -> settled now old new s'.
Proof.
  unfold effects. intros H.
  destruct (isPlaying old) eqn:Ho, (isPlaying new) eqn:Hn; cbn [xorb] in H;
    rewrite ?andb_true_r, ?andb_false_r, ?orb_true_r in H; cbn [orb] in H.
  - destruct (_ || xorb _ _)%bool; rewrite ?speakSlide_spoken in H;
      cbv beta iota in H; injection H as <-.
    + now apply settled_spoken.
    + apply settled_quiet. congruence.
  - cbv beta iota in H. injection H as <-. now apply settled_halted.
  - rewrite speakSlide_spoken in H. cbv beta iota in H. injection H as <-.
    now apply settled_started.
  - cbv beta iota in H. injection H as <-. apply settled_quiet. congruence.
Qed.

Lemma step_shape (now : Z) (e : Event) (s s' : state) :
  step slides now e s = Some s' ->
  exists s1, handled now s s1 /\ settled now s s1 s'.
Proof.
  unfold step. intros H.
  destruct (handle slides now e s) as [s1|] eqn:Hh; [|discriminate].
  exists s1. split; [exact (handle_handled now e s s1 Hh)|now apply effects_settled].
Qed.

Lemma run_invariant (P : state -> Prop) :
  (forall now e s s', P s -> step slides now e s = Some s' -> P s') ->
  forall evs s s', P s -> run slides evs s = Some s' -> P s'.
Proof.
  intros Hstep evs. induction evs as [|[now e] r IH]; intros s s' HP Hrun.
  - simpl in Hrun. now injection Hrun as <-.
  - simpl in Hrun. destruct (step slides now e s) as [s1|] eqn:Hs; [|discriminate].
    eapply IH; [|exact Hrun]. eapply Hstep; eassumption.
Qed.

(** ** Never an exception *)

(** X9.  Whatever the slides and whatever the events, no callback and no
    effect throws: the only member access on a slide, [narration] in
    [speakSlide], is behind the guard on [slides[index]]. *)
Theorem no_event_sequence_throws (evs : list (Z * Event)) (s : state) :
  exists s', run slides evs s = Some s'.
Proof. apply run_total. Qed.

(** ** While muted, nothing is spoken *)

Definition silent_when_muted (s : state) : Prop :=
  isMuted s = true -> speaking s = None.

Lemma handled_silent_when_muted (now : Z) (s s' : state) :
  silent_when_muted s -> handled now s s' -> silent_when_muted s'.
Proof.
  unfold silent_when_muted. intros HP Hh.
  induction Hh; destruct s as [cs pl mu pr sh iv st du ct sp pe];
    player_unfold; split_goal; try tauto; try discriminate;
    intros; subst; try reflexivity; try discriminate.
Qed.

Lemma settled_silent_when_muted (now : Z) (old new s' : state) :
  silent_when_muted new -> settled now old new s' -> silent_when_muted s'.
Proof.
  unfold silent_when_muted. intros HP Hs.
  destruct Hs; destruct new as [cs pl mu pr sh iv st du ct sp pe];
    player_unfold; split_goal; try tauto; try discriminate;
    intros; subst; try reflexivity; try discriminate.
Qed.

(** X12.  From the initial state on, while [isMuted] holds the engine has no
    utterance of the player: muting cancels it and [speakSlide] starts
    none. *)
Theorem muted_player_is_silent (evs : list (Z * Event)) (s : state) :
  run slides evs init = Some s -> isMuted s = true -> speaking s = None.
Proof.
  intros Hrun.
  apply (run_invariant silent_when_muted) with (evs := evs) (s := init);
    [|intros H; reflexivity|exact Hrun].
  intros now e s0 s1 HP Hstep.
  destruct (step_shape now e s0 s1 Hstep) as (s2 & Hh & Hs).
  eapply settled_silent_when_muted; [|exact Hs].
  eapply handled_silent_when_muted; eassumption.
Qed.

(** ** The current slide exists *)

(** Every index the player holds is the index of a slide: the current
    slide, the indices that pending timeouts, the fallback interval and
    the utterance captured. *)
Definition indices_ok (s : state) : Prop :=
  in_range (currentSlide s)
  /\ Forall in_range (pending s)
  /\ (forall i, intervalRef s = Some (FallbackTick i) -> in_range i)
  /\ (forall i, speaking s = Some i -> in_range i).

Lemma Forall_remove_nth (P : Z -> Prop) (n : nat) (l : list Z) :
  Forall P l -> Forall P (remove_nth n l).
Proof.
  intros H. unfold remove_nth. apply Forall_app. split.
  - revert n. induction H; intros [|n]; simpl; try constructor; auto.
  - generalize (S n). induction H; intros [|m]; simpl; try constructor; auto.
Qed.

Lemma Forall_nth_error (P : Z -> Prop) (n : nat) (l : list Z) (x : Z) :
  Forall P l -> nth_error l n = Some x -> P x.
Proof.
  intros H Hn. rewrite Forall_forall in H. apply H.
  eapply nth_error_In; eassumption.
Qed.

Lemma Forall_snoc (P : Z -> Prop) (l : list Z) (x : Z) :
  Forall P l -> P x -> Forall P (l ++ [x]).
Proof. intros Hl Hx. apply Forall_app. split; [exact Hl|now constructor]. Qed.

Lemma spoken_indices_ok (now i : Z) (s : state) :
  in_range i -> in_range (currentSlide s) -> Forall in_range (pending s) ->
  indices_ok (spoken slides now i s).
Proof.
  intros Hi Hc Hp. unfold indices_ok, spoken.
  cbn [currentSlide pending intervalRef speaking].
  split; [exact Hc|]. split; [exact Hp|]. split; intros j Hj.
  - destruct (_ || _)%bool; [|discriminate]. now injection Hj as <-.
  - destruct (_ || _)%bool; [discriminate|]. now injection Hj as <-.
Qed.

Ltac four_parts :=
  split; [|split; [|split]];
  try assumption; try (intros ? ?; discriminate); auto.

Lemma handled_indices_ok (now : Z) (s s' : state) :
  in_range 0 -> indices_ok s -> handled now s s' -> indices_ok s'.
Proof.
  intros H0 Hok Hh. induction Hh;
    try destruct IHHh as (Hc1 & Hp1 & Hi1 & Hs1);
    destruct Hok as (Hc & Hp & Hi & Hs);
    try (apply spoken_indices_ok; try assumption; now destruct s);
    unfold indices_ok;
    try destruct s1 as [cs1 pl1 mu1 pr1 sh1 iv1 st1 du1 ct1 sp1 pe1];
    destruct s as [cs pl mu pr sh iv st du ct sp pe]; player_unfold.
  - four_parts.
  - four_parts.
  - four_parts.
  - four_parts.
  - destruct mu; cbn [negb]; four_parts.
  - four_parts.
  - destruct iv as [[index|]|]; [destruct (Qle_bool 1 _)| |]; four_parts.
    apply Forall_snoc; [exact Hp|]. now apply Hi.
  - pose proof (Forall_nth_error _ _ _ _ Hp H) as Hindex.
    pose proof (Forall_remove_nth _ n _ Hp) as Hrem.
    destruct (Z.ltb_spec index (slides_length slides - 1)); four_parts.
    unfold in_range in *. lia.
  - four_parts.
  - destruct sp as [index|]; four_parts.
    apply Forall_snoc; [exact Hp|]. now apply Hs.
  - destruct sp as [index|]; four_parts.
  - four_parts.
Qed.

Lemma settled_indices_ok (now : Z) (old new s' : state) :
  indices_ok new -> settled now old new s' -> indices_ok s'.
Proof.
  intros Hok Hst. pose proof Hok as (Hc & Hp & Hi & Hs). destruct Hst.
  - exact Hok.
  - now apply spoken_indices_ok.
  - pose proof (spoken_indices_ok now (currentSlide new) new Hc Hc Hp) as Hsp.
    exact Hsp.
  - exact Hok.
Qed.

(** X10.  With at least one slide, [currentSlide] is the index of a slide in
    every state that events lead to from the initial one, so the
    component never renders nothing. *)
Theorem current_slide_exists (evs : list (Z * Event)) (s : state) :
  slides <> [] ->
  run slides evs init = Some s ->
  (0 <= currentSlide s < slides_length slides)%Z
  /\ render slides s <> Null.
Proof.
  intros Hne Hrun.
  assert (H0 : in_range 0).
  { unfold in_range, slides_length. destruct slides; [contradiction|].
    simpl List.length. lia. }
  assert (Hok : indices_ok s).
  { apply (run_invariant indices_ok) with (evs := evs) (s := init);
      [|split; [exact H0|split; [constructor|split; intros j Hj; discriminate]]
       |exact Hrun].
    intros now e s0 s1 HP Hstep.
    destruct (step_shape now e s0 s1 Hstep) as (s2 & Hh & Hs).
    eapply settled_indices_ok; [|exact Hs].
    eapply handled_indices_ok; eassumption. }
  destruct Hok as (Hc & _). split; [exact Hc|].
  unfold render, slide_at. unfold in_range, slides_length in Hc.
  destruct (Z.ltb_spec (currentSlide s) 0); [lia|].
  destruct (nth_error slides (Z.to_nat (currentSlide s))) eqn:E; [discriminate|].
  apply nth_error_None in E. lia.
Qed.

(** ** The progress stays between 0 and 1 *)

Lemma estimatedMs_positive (t : text) : (0 < estimatedMs t)%Q.
Proof.
  unfold estimatedMs. eapply Qlt_le_trans; [|apply Q.le_max_r]. reflexivity.
Qed.

Lemma progress_at_bounds (now : Z) (s : state) :
  (startTimeRef s <= now)%Z -> (0 < durationRef s)%Q ->
  (0 <= progress_at now s /\ progress_at now s <= 1)%Q.
Proof.
  intros Ht Hd. unfold progress_at. split.
  - apply Q.min_glb; [|discriminate].
    apply Qle_shift_div_l; [exact Hd|].
    rewrite Qmult_0_l. unfold Qle, inject_Z. simpl. lia.
  - apply Q.le_min_r.
Qed.

(** The progress is a fraction, the clock of the player is not ahead
    of [t], and the estimated duration is positive. *)
Definition timing_ok (t : Z) (s : state) : Prop :=
  (0 <= slideProgress s /\ slideProgress s <= 1)%Q
  /\ (startTimeRef s <= t)%Z
  /\ (0 < durationRef s)%Q.

Lemma spoken_timing_ok (now i : Z) (s : state) : timing_ok now (spoken slides now i s).
Proof.
  unfold timing_ok, spoken. cbn [slideProgress startTimeRef durationRef].
  split; [split; discriminate|]. split; [lia|].
  destruct (_ || _)%bool; [reflexivity|].
  destruct (slide_at slides i); [apply estimatedMs_positive|reflexivity].
Qed.

Lemma handled_timing_ok (t now : Z) (s s' : state) :
  (t <= now)%Z -> timing_ok t s -> handled now s s' -> timing_ok now s'.
Proof.
  intros Hle Hok Hh. induction Hh;
    try (apply spoken_timing_ok);
    try destruct IHHh as ((Hp0 & Hp1) & Hst1 & Hd1);
    destruct Hok as ((Hpa & Hpb) & Hst & Hd);
    assert (Hnow : (startTimeRef s <= now)%Z) by lia;
    pose proof (progress_at_bounds now s Hnow Hd) as [Hq0 Hq1];
    unfold timing_ok;
    try destruct s1 as [cs1 pl1 mu1 pr1 sh1 iv1 st1 du1 ct1 sp1 pe1];
    destruct s as [cs pl mu pr sh iv st du ct sp pe]; player_unfold;
    try (destruct mu; cbn [negb]);
    try (destruct iv as [[index|]|]; [destruct (Qle_bool 1 _)| |]);
    try (destruct (index <? slides_length slides - 1)%Z);
    try (destruct sp as [index|]);
    (split; [split|split]); try assumption; try discriminate.
Qed.

Lemma settled_timing_ok (now : Z) (old new s' : state) :
  timing_ok now new -> settled now old new s' -> timing_ok now s'.
Proof.
  intros Hok Hst. destruct Hst; try exact Hok; apply spoken_timing_ok.
Qed.

(** The times of a sequence of events never go back, starting
    from [t]. *)
Fixpoint ordered (t : Z) (evs : list (Z * Event)) : Prop :=
  match evs with
  | [] => True
  | (now, _) :: r => (t <= now)%Z /\ ordered now r
  end.

Lemma run_timing_ok (evs : list (Z * Event)) (t : Z) (s s' : state) :
  ordered t evs -> timing_ok t s -> run slides evs s = Some s' ->
  exists t', timing_ok t' s'.
Proof.
  revert t s. induction evs as [|[now e] r IH]; intros t s Hord Hok Hrun.
  - simpl in Hrun. injection Hrun as <-. now exists t.
  - destruct Hord as [Hle Hord]. simpl in Hrun.
    destruct (step slides now e s) as [s1|] eqn:Hs; [|discriminate].
    destruct (step_shape now e s s1 Hs) as (s2 & Hh & Hst).
    apply (IH now s1 Hord); [|exact Hrun].
    eapply settled_timing_ok; [|exact Hst].
    eapply handled_timing_ok; eassumption.
Qed.

(** X11.  When the clock does not go back, [slideProgress] is a fraction
    between 0 and 1 in every state that events lead to from the initial
    one. *)
Theorem progress_is_a_fraction (evs : list (Z * Event)) (s : state) :
  ordered 0 evs ->
  run slides evs init = Some s ->
  (0 <= slideProgress s /\ slideProgress s <= 1)%Q.
Proof.
  intros Hord Hrun.
  destruct (run_timing_ok evs 0 init s Hord) as [t' [Hp _]]; [|exact Hrun|exact Hp].
  split; [split; discriminate|]. split; [reflexivity|reflexivity].
Qed.

(** ** Controls while not playing *)

Definition controls_shown (s : state) : Prop :=
  isPlaying s = false -> showControls s = true /\ controlsTimerRef s = false.

Lemma handled_controls_shown (now : Z) (s s1 : state) :
  controls_shown s -> handled now s s1 ->
  isPlaying s = isPlaying s1 -> controls_shown s1.
Proof.
  unfold controls_shown. intros Hok Hh.
  destruct Hh; try destruct s1 as [cs1 pl1 mu1 pr1 sh1 iv1 st1 du1 ct1 sp1 pe1];
    destruct s as [cs pl mu pr sh iv st du ct sp pe]; player_unfold;
    try (destruct mu; cbn [negb]);
    try (destruct iv as [[index|]|]; [destruct (Qle_bool 1 _)| |]);
    try (destruct (index <? slides_length slides - 1)%Z);
    try (destruct sp as [index|]);
    intros Heq Hp; subst; try discriminate; auto;
    try (destruct (Hok eq_refl) as [? ?]; discriminate).
Qed.

Lemma step_controls_shown (now : Z) (e : Event) (s s' : state) :
  controls_shown s -> step slides now e s = Some s' -> controls_shown s'.
Proof.
  intros Hok Hstep.
  destruct (step_shape now e s s' Hstep) as (s1 & Hh & Hst).
  destruct Hst as [Heq|Hn Ho|Hn Ho|Hn Ho].
  - now apply (handled_controls_shown now s s1).
  - intros Hp. destruct s1. player_unfold. congruence.
  - intros Hp. destruct s1. player_unfold. congruence.
  - intros _. split; reflexivity.
Qed.

(** X13.  While the player is not playing, the controls are visible and no
    timeout to hide them is pending, in every state that events lead to
    from the initial one. *)
Theorem controls_visible_when_not_playing (evs : list (Z * Event)) (s : state) :
  run slides evs init = Some s ->
  isPlaying s = false ->
  showControls s = true /\ controlsTimerRef s = false.
Proof.
  intros Hrun.
  apply (run_invariant controls_shown step_controls_shown evs init s);
    [|exact Hrun].
  intros _. split; reflexivity.
Qed.

(** ** Auto-advance timeouts are never cancelled *)

Lemma act_pending (now : Z) (a : Action) (s s' : state) :
  act slides now a s = Some s' -> pending s' = pending s.
Proof.
  destruct a as [| | |i|]; cbn [act]; intros H;
    try (injection H as <-; destruct s as [cs pl mu pr sh iv st du ct sp pe];
         player_unfold; try destruct mu; reflexivity).
  unfold goToSlide in H.
  destruct (_ || _)%bool; [now injection H as <-|].
  destruct (isPlaying _).
  - rewrite speakSlide_spoken in H. injection H as <-. now destruct s.
  - injection H as <-. now destruct s.
Qed.

(** X14.  Only its own firing removes an auto-advance timeout.  Whatever
    else happens (play, pause, stop, navigation, muting, ticks,
    narration events), the timeouts that were pending are still pending
    afterwards, in the same order, possibly with new ones after them. *)
Theorem pending_timeouts_survive (now : Z) (e : Event) (s s' : state) :
  (forall n, e <> Advance n) ->
  step slides now e s = Some s' ->
  exists l, pending s' = pending s ++ l.
Proof.
  intros Hne Hstep. unfold step in Hstep.
  destruct (handle slides now e s) as [s1|] eqn:Hh; [|discriminate].
  assert (H1 : exists l, pending s1 = pending s ++ l).
  { destruct e as [a|a|k| | |n| | |]; cbn [handle] in Hh.
    - exists []. rewrite app_nil_r. now apply (act_pending now a).
    - destruct (act slides now a s) as [s2|] eqn:Ha; [|discriminate].
      injection Hh as <-. exists []. rewrite app_nil_r.
      apply act_pending in Ha. now destruct s2.
    - exists []. rewrite app_nil_r. now apply (act_pending now (handleKey k s)).
    - injection Hh as <-. exists []. rewrite app_nil_r. now destruct s.
    - injection Hh as <-. destruct s as [cs pl mu pr sh iv st du ct sp pe].
      player_unfold. destruct iv as [[index|]|]; [destruct (Qle_bool 1 _)| |];
        cbn [pending]; eauto using app_nil_r; exists []; now rewrite app_nil_r.
    - now destruct (Hne n).
    - destruct (controlsTimerRef s); injection Hh as <-; exists [];
        rewrite app_nil_r; now destruct s.
    - injection Hh as <-. destruct s as [cs pl mu pr sh iv st du ct sp pe].
      player_unfold. destruct sp; cbn [pending]; eauto.
      exists []. now rewrite app_nil_r.
    - injection Hh as <-. destruct s as [cs pl mu pr sh iv st du ct sp pe].
      player_unfold. destruct sp; cbn [pending]; exists []; now rewrite app_nil_r. }
  destruct H1 as [l Hl]. exists l. rewrite <- Hl.
  apply effects_settled in Hstep.
  destruct Hstep; try reflexivity; now destruct s1.
Qed.

(** ** Muting while playing *)


(** ** Arrow keys at the ends *)

Lemma goToSlide_outside (now i : Z) (s : state) :
  (i < 0 \/ slides_length slides <= i)%Z ->
  step slides now (Call (GoToSlide i)) s = Some s.
Proof.
  intros Hout. unfold step. cbn [handle act]. unfold goToSlide.
  assert (Hg : ((i <? 0)%Z || (slides_length slides <=? i)%Z)%bool = true).
  { destruct (Z.ltb_spec i 0); [reflexivity|].
    destruct (Z.leb_spec (slides_length slides) i); [reflexivity|lia]. }
  rewrite Hg. apply effects_same.
Qed.

(** X16.  ArrowLeft on the first slide and ArrowRight on the last slide
    change nothing: the player does not wrap around and the narration
    of the current slide goes on. *)
Theorem arrow_keys_stop_at_the_ends (now : Z) (s : state) :
  (currentSlide s = 0%Z ->
   step slides now (Key ArrowLeft) s = Some s)
  /\ (currentSlide s = (slides_length slides - 1)%Z ->
      step slides now (Key ArrowRight) s = Some s).
Proof.
  split; intros Hc.
  - apply (goToSlide_outside now (currentSlide s - 1) s). lia.
  - apply (goToSlide_outside now (currentSlide s + 1) s). lia.
Qed.

End PlayerMore.

(** * Properties of the chat message list *)

Section ChatFacts.

Import Chat.

Lemma last_map_snoc (l : list Message) (m : Message) :
  List.last (List.map Some (l ++ [m])) None = Some m.
Proof. rewrite map_app. simpl. apply last_last. Qed.

Lemma last_cons_default (c d : text) (r : list text) :
  List.last (c :: r) d = List.last r c.
Proof.
  revert c d. induction r as [|x r IH]; intros c d; [reflexivity|].
  change (List.last (c :: x :: r) d) with (List.last (x :: r) d).
  now rewrite (IH x d), (IH x c).
Qed.

Lemma updater_first (aid c : text) (prev : list Message) :
  Forall (fun m => id m <> aid) prev ->
  updater aid c prev = prev ++ [Build_Message aid assistant c].
Proof.
  intros Hall. unfold updater.
  destruct prev as [|m l] using rev_ind; [reflexivity|].
  rewrite last_map_snoc.
  apply Forall_app in Hall as [_ Hm]. inversion Hm as [|? ? Hne _]; subst.
  destruct (text_eqb (id m) aid) eqn:E; [|reflexivity].
  apply text_eqb_true in E. contradiction.
Qed.

Lemma map_with_content_other (aid c : text) (prev : list Message) :
  Forall (fun m => id m <> aid) prev ->
  List.map (with_content aid c) prev = prev.
Proof.
  induction 1 as [|m l Hm _ IH]; simpl; [reflexivity|].
  rewrite IH. unfold with_content.
  destruct (text_eqb (id m) aid) eqn:E; [|reflexivity].
  apply text_eqb_true in E. contradiction.
Qed.

Lemma updater_next (aid c c0 : text) (prev : list Message) :
  Forall (fun m => id m <> aid) prev ->
  updater aid c (prev ++ [Build_Message aid assistant c0])
  = prev ++ [Build_Message aid assistant c].
Proof.
  intros Hall. unfold updater. rewrite last_map_snoc. cbn [id].
  assert (E : text_eqb aid aid = true) by now apply text_eqb_true.
  rewrite E, map_app, (map_with_content_other aid c prev Hall).
  simpl. unfold with_content. cbn [id role]. now rewrite E.
Qed.

Lemma updates_one_message (aid : text) (prev : list Message) (cs : list text) (c0 : text) :
  Forall (fun m => id m <> aid) prev ->
  fold_left (fun ms c => updater aid c ms) cs
            (prev ++ [Build_Message aid assistant c0])
  = prev ++ [Build_Message aid assistant (List.last cs c0)].
Proof.
  intros Hall. revert c0. induction cs as [|c r IH]; intros c0; [reflexivity|].
  cbn [fold_left]. rewrite (updater_next aid c c0 prev Hall), IH.
  now rewrite last_cons_default.
Qed.

(** X8.  However many snapshots a stream emits, the chat shows one
    assistant message for it: when no earlier message has the id of the
    answer, the list after the stream is the list before it followed by
    one message that holds the accumulated response; a stream without
    snapshots leaves the list as it was. *)
Theorem one_assistant_message_per_answer
  (aid : text) (prev : list Message) (chunks : list text) :
  Forall (fun m => id m <> aid) prev ->
  shown aid prev chunks
  = match Assembler.emitted (Assembler.assemble chunks) with
    | [] => prev
    | _ :: _ =>
        prev ++ [Build_Message aid assistant
                   (Assembler.content (Assembler.assemble chunks))]
    end.
Proof.
  intros Hall. unfold shown. rewrite assemble_content_last.
  destruct (Assembler.emitted (Assembler.assemble chunks)) as [|c r]; [reflexivity|].
  cbn [fold_left]. rewrite (updater_first aid c prev Hall).
  rewrite (updates_one_message aid prev r c Hall).
  now rewrite last_cons_default.
Qed.

End ChatFacts.

(** * From an error of [generate-slides] to the toast *)

Section SlidesFacts.

Import Request Stringify Slides.

(** ** Quoting and parsing a string *)

Lemma hex_val_digit (k : N) : (k < 16)%N -> hex_val (hex_digit k) = Some k.
Proof.
  intros H.
  assert (Hk : exists n, (n < 16)%nat /\ k = N.of_nat n).
  { exists (N.to_nat k). split; [lia|now rewrite N2Nat.id]. }
  destruct Hk as (n & Hn & ->).
  do 16 (destruct n as [|n]; [reflexivity|]). lia.
Qed.

Lemma hex4_unicode_escape (c : N) :
  (c < 65536)%N ->
  hex4 (hex_digit (N.div c 4096)) (hex_digit (N.modulo (N.div c 256) 16))
       (hex_digit (N.modulo (N.div c 16) 16)) (hex_digit (N.modulo c 16))
  = Some c.
Proof.
  intros H. unfold hex4.
  assert (H1 : (N.div c 4096 < 16)%N).
  { apply N.Div0.div_lt_upper_bound. lia. }
  rewrite !hex_val_digit; try (apply N.mod_lt; discriminate); try exact H1.
  f_equal.
  pose proof (N.Div0.div_mod c 16) as E1.
  pose proof (N.Div0.div_mod (N.div c 16) 16) as E2.
  pose proof (N.Div0.div_mod (N.div c 256) 16) as E3.
  assert (E4 : N.div (N.div c 16) 16 = N.div c 256).
  { rewrite N.Div0.div_div. reflexivity. }
  assert (E5 : N.div (N.div c 256) 16 = N.div c 4096).
  { rewrite N.Div0.div_div. reflexivity. }
  assert (E6 : N.modulo (N.div c 4096) 16 = N.div c 4096).
  { apply N.mod_small. exact H1. }
  rewrite E4 in E2. rewrite E5 in E3. lia.
Qed.

Lemma parse_unicode_escape (c : N) (tail : text) :
  (c < 65536)%N ->
  parse_string_body (unicode_escape c ++ tail)
  = match parse_string_body tail with
    | Some (t, rest) => Some (c :: t, rest)
    | None => None
    end.
Proof.
  intros H. unfold unicode_escape. cbn [app parse_string_body].
  change (N.eqb 92 34) with false. change (N.eqb 92 92) with true.
  change (N.eqb 117 117) with true. cbv beta iota.
  now rewrite (hex4_unicode_escape c H).
Qed.

Lemma parse_quote_unit (c : N) (tail : text) :
  is_lead c = false ->
  parse_string_body (quote_unit c ++ tail)
  = match parse_string_body tail with
    | Some (t, rest) => Some (c :: t, rest)
    | None => None
    end.
Proof.
  intros Hl. unfold quote_unit.
  destruct (N.eqb_spec c 8) as [->|H8]; [reflexivity|].
  destruct (N.eqb_spec c 9) as [->|H9]; [reflexivity|].
  destruct (N.eqb_spec c 10) as [->|H10]; [reflexivity|].
  destruct (N.eqb_spec c 12) as [->|H12]; [reflexivity|].
  destruct (N.eqb_spec c 13) as [->|H13]; [reflexivity|].
  destruct (N.eqb_spec c 34) as [->|H34]; [reflexivity|].
  destruct (N.eqb_spec c 92) as [->|H92]; [reflexivity|].
  rewrite Hl, orb_false_r.
  destruct (N.ltb_spec c 32) as [Hlt|Hge]; cbn [orb].
  - apply parse_unicode_escape. lia.
  - destruct (is_trail c) eqn:Ht.
    + apply parse_unicode_escape. unfold is_trail in Ht.
      apply andb_true_iff in Ht as [_ Ht]. apply N.leb_le in Ht. lia.
    + cbn [app parse_string_body].
      destruct (N.eqb_spec c 34); [contradiction|].
      destruct (N.eqb_spec c 92); [contradiction|].
      destruct (N.ltb_spec c 32); [lia|]. reflexivity.
Qed.

Lemma parse_surrogate_pair (c d : N) (tail : text) :
  is_lead c = true -> is_trail d = true ->
  parse_string_body (c :: d :: tail)
  = match parse_string_body tail with
    | Some (t, rest) => Some (c :: d :: t, rest)
    | None => None
    end.
Proof.
  unfold is_lead, is_trail. intros Hc Hd.
  apply andb_true_iff in Hc as [Hc _]. apply N.leb_le in Hc.
  apply andb_true_iff in Hd as [Hd _]. apply N.leb_le in Hd.
  cbn [parse_string_body].
  destruct (N.eqb_spec c 34); [lia|]. destruct (N.eqb_spec c 92); [lia|].
  destruct (N.ltb_spec c 32); [lia|].
  destruct (N.eqb_spec d 34); [lia|]. destruct (N.eqb_spec d 92); [lia|].
  destruct (N.ltb_spec d 32); [lia|].
  destruct (parse_string_body tail) as [[t rest]|]; reflexivity.
Qed.

(** What [JSON.stringify] writes for a string, [JSON.parse] reads back
    as that string. *)
Lemma parse_quote_units (n : nat) (s rest : text) :
  List.length s <= n ->
  parse_string_body (quote_units s ++ 34%N :: rest) = Some (s, rest).
Proof.
  revert s. induction n as [|n IH]; intros s Hn.
  - destruct s; [reflexivity|simpl in Hn; lia].
  - destruct s as [|c r]; [reflexivity|]. simpl in Hn.
    cbn [quote_units]. destruct (is_lead c) eqn:Hl.
    + destruct r as [|d r'].
      * rewrite parse_unicode_escape; [reflexivity|].
        unfold is_lead in Hl. apply andb_true_iff in Hl as [_ Hl].
        apply N.leb_le in Hl. lia.
      * destruct (is_trail d) eqn:Ht.
        -- cbn [app]. rewrite (parse_surrogate_pair c d _ Hl Ht).
           rewrite IH by (simpl in Hn; lia). reflexivity.
        -- rewrite <- app_assoc, parse_unicode_escape.
           ++ rewrite IH by lia. reflexivity.
           ++ unfold is_lead in Hl. apply andb_true_iff in Hl as [_ Hl].
              apply N.leb_le in Hl. lia.
    + rewrite <- app_assoc, (parse_quote_unit c _ Hl).
      rewrite IH by lia. reflexivity.
Qed.

Lemma parse_error_object (m : text) :
  parse (error_object m) = Some (JObject [(lit "error", JString m)]).
Proof.
  unfold parse.
  assert (Hf : exists f, 2 * List.length (error_object m) + 2 = 3 + f).
  { exists (2 * List.length (error_object m) + 2 - 3).
    assert (1 <= List.length (error_object m)).
    { unfold error_object. rewrite !length_app. simpl List.length. lia. }
    lia. }
  destruct Hf as [f ->].
  unfold error_object, quote. repeat rewrite <- app_assoc.
  cbn. rewrite (parse_quote_units _ m _ (le_n _)). reflexivity.
Qed.

(** ** The message that the user sees *)

Lemma error_response_shown (st : N) (m : text) :
  ok (Build_Response st None) = false ->
  handleVideoAction_failure (error_response st m)
  = Some (Error (match m with
                 | [] => lit "Error " ++ digits st
                 | _ :: _ => m
                 end)).
Proof.
  intros Hok. unfold handleVideoAction_failure, error_response, json, ok in *.
  cbn [status body] in *. rewrite Hok, parse_error_object.
  unfold throw_error. cbn [get].
  change (lookup_member (lit "error") [(lit "error", JString m)])
    with (Some (JString m)).
  destruct m; reflexivity.
Qed.

(** X17.  Every error body that [generate-slides] writes is read back by
    [handleVideoAction]: whatever the message (any characters, quotation
    marks, line breaks, surrogates), the toast shows exactly that message,
    and the generic message with the status when the message is
    empty. *)
Theorem error_message_reaches_the_toast (st : N) (m : text) :
  (st < 200 \/ 299 < st)%N ->
  handleVideoAction_failure (error_response st m)
  = Some (Error (match m with
                 | [] => lit "Error " ++ digits st
                 | _ :: _ => m
                 end)).
Proof.
  intros Hst. apply error_response_shown. unfold ok. cbn [status].
  destruct (N.leb_spec 200 st); [|reflexivity].
  destruct (N.leb_spec st 299); [lia|reflexivity].
Qed.

(** X18.  Whatever status the gateway fails with, the user is told why:
    the rate-limit message for 429, the credits message for 402, and
    [AI service error] for every other status. *)
Theorem gateway_failure_is_explained (gateway_status : N) :
  handleVideoAction_failure (gateway_failure gateway_status)
  = Some (Error
            (if N.eqb gateway_status 429
             then lit "Rate limit exceeded. Please try again in a moment."
             else if N.eqb gateway_status 402
             then lit "AI usage credits exhausted."
             else lit "AI service error")).
Proof.
  unfold gateway_failure.
  destruct (N.eqb gateway_status 429); [|destruct (N.eqb gateway_status 402)];
    now rewrite error_response_shown.
Qed.

End SlidesFacts.

(** * Properties of the spoken text *)

Section AudioFacts.

Import Audio.

(** X19.  The bracketed words are never matched: a text that starts with one
    of them starts with an opening bracket, which the character class
    before them takes.  At a line start the expression removes a host
    label, or else one character of the class, and nothing else; of
    a scene marker only the opening bracket goes. *)
Theorem bracketed_words_never_match (s : text) :
  token s
  = if (startsWith (lit "Host 1:") s || startsWith (lit "Host 2:") s)%bool
    then Some 7
    else if match s with c :: _ => in_class c | [] => false end
    then Some 1
    else None.
Proof.
  unfold token.
  destruct (startsWith (lit "Host 1:") s || startsWith (lit "Host 2:") s)%bool;
    [reflexivity|].
  destruct s as [|c r]; [reflexivity|].
  destruct (in_class c) eqn:Hc; [reflexivity|].
  assert (H91 : N.eqb 91 c = false).
  { unfold in_class in Hc. destruct (N.eqb_spec 91 c) as [<-|]; [discriminate Hc|reflexivity]. }
  cbn [startsWith lit List.map list_ascii_of_string].
  change (N_of_ascii "[") with 91%N. now rewrite H91.
Qed.

Definition no_terminator (l : text) : Prop :=
  forallb (fun c => negb (isLineTerminator c)) l = true.

Lemma strip_within_line (l tail : text) :
  no_terminator l ->
  strip 0 false (l ++ LF :: tail) = l ++ LF :: strip 0 true tail.
Proof.
  unfold no_terminator. induction l as [|c l IH]; intros H.
  - reflexivity.
  - simpl in H. apply andb_true_iff in H as [Hc Hl].
    apply negb_true_iff in Hc. cbn [app strip]. rewrite Hc. now rewrite IH.
Qed.

Lemma strip_within_last_line (l : text) :
  no_terminator l -> strip 0 false l = l.
Proof.
  unfold no_terminator. induction l as [|c l IH]; intros H.
  - reflexivity.
  - simpl in H. apply andb_true_iff in H as [Hc Hl].
    apply negb_true_iff in Hc. cbn [strip]. rewrite Hc. now rewrite IH.
Qed.

(** The label of a host, by its number. *)
Definition host_label (second : bool) : text :=
  if second then lit "Host 2:" else lit "Host 1:".

(** The lines of a script, each after its label, joined by line
    feeds. *)
Fixpoint script (labelled : bool) (ls : list (bool * text)) : text :=
  match ls with
  | [] => []
  | (h, l) :: r =>
      (if labelled then host_label h else []) ++ l
      ++ match r with
         | [] => []
         | _ :: _ => LF :: script labelled r
         end
  end.

Lemma strip_host_label (h : bool) (tail : text) :
  strip 0 true (host_label h ++ tail) = strip 0 false tail.
Proof. destruct h; reflexivity. Qed.

(** X20.  From a script whose every line starts with a host label, the
    labels are removed and nothing else is: whatever a line says after
    its label is spoken as it is, also when it starts with a character
    that the expression would remove at a line start. *)
Theorem host_labels_are_not_spoken (ls : list (bool * text)) :
  Forall (fun hl => no_terminator (snd hl)) ls ->
  clean (script true ls) = trim (script false ls).
Proof.
  intros Hall. unfold clean. f_equal.
  induction Hall as [|[h l] r Hl _ IH]; [reflexivity|].
  cbn [snd] in Hl. cbn [script]. rewrite strip_host_label. cbn [app].
  destruct r as [|hl r'].
  - rewrite !app_nil_r. now apply strip_within_last_line.
  - rewrite (strip_within_line l _ Hl). now rewrite IH.
Qed.

End AudioFacts.

(** * Instances *)

Section AssemblerInstances.

Import Assembler.

(** An empty delta and two others, their lines, and the sentinel. *)
Definition hello : list text := [[]; lit "Hel"; lit "lo"].

Definition hello_stream : text := delta_lines hello ++ sentinel_line.

Lemma hello_ok : plain_deltas hello.
Proof. repeat constructor. Qed.

Lemma well_formed_stream_witness :
  assemble [firstn 30 (delta_lines hello); skipn 30 (delta_lines hello)]
  = State [] (List.concat hello) (snapshots [] hello).
Proof.
  apply (well_formed_stream_any_chunking hello
           [firstn 30 (delta_lines hello); skipn 30 (delta_lines hello)]).
  - exact hello_ok.
  - vm_compute. reflexivity.
Defined.

(** The stream cut inside the sentinel line. *)
Lemma well_formed_stream_with_sentinel_witness :
  assemble ([firstn 30 hello_stream; firstn 120 (skipn 30 hello_stream)]
            ++ [skipn 150 hello_stream])
  = State [] (List.concat hello) (snapshots [] hello).
Proof.
  apply (well_formed_stream_with_sentinel hello
           [firstn 30 hello_stream; firstn 120 (skipn 30 hello_stream)]
           (skipn 150 hello_stream)).
  - exact hello_ok.
  - vm_compute. discriminate.
  - vm_compute. reflexivity.
Defined.

Lemma crlf_same_as_lf_witness :
  lines (State (lit "data: [DONE]" ++ CR :: LF :: lit "tail") (lit "so far") [])
  = lines (State (lit "data: [DONE]" ++ LF :: lit "tail") (lit "so far") []).
Proof.
  apply (crlf_same_as_lf (lit "data: [DONE]") (lit "tail") (lit "so far") []).
  - reflexivity.
  - reflexivity.
Defined.

Lemma non_data_lines_witness :
  lines (State (lit ": keep-alive" ++ LF :: delta_line (lit "Hi")) [] [])
  = lines (State (delta_line (lit "Hi")) [] []).
Proof.
  apply (non_data_lines_are_skipped (lit ": keep-alive") (delta_line (lit "Hi")) [] []).
  - reflexivity.
  - reflexivity.
Defined.

Lemma null_payload_witness :
  lines (State (lit "data: null" ++ LF :: delta_line (lit "Hi")) (lit "so far") [])
  = State (strip_cr (lit "data: null") ++ [LF] ++ delta_line (lit "Hi"))
          (lit "so far") []
  /\ forall chunks,
       content (read_loop chunks
                  (State (strip_cr (lit "data: null") ++ [LF] ++ delta_line (lit "Hi"))
                         (lit "so far") []))
       = lit "so far"
       /\ emitted (read_loop chunks
                     (State (strip_cr (lit "data: null") ++ [LF] ++ delta_line (lit "Hi"))
                            (lit "so far") []))
          = [].
Proof.
  apply (null_payload_blocks_the_stream
           (lit "data: null") (delta_line (lit "Hi")) (lit "so far") []).
  - reflexivity.
  - reflexivity.
  - vm_compute. reflexivity.
Defined.

End AssemblerInstances.

Section PlayerInstances.

Import Player.

(** The player muted and playing the first of three slides. *)
Definition muted_first : state :=
  State 0 true true 0 true (Some (FallbackTick 0)) 0 4000 true None [].

Lemma muted_player_witness : speaking muted_first = None.
Proof.
  apply (muted_player_is_silent three_slides
           [(0%Z, Call ToggleMute); (0%Z, Call Play)] muted_first).
  - vm_compute. reflexivity.
  - reflexivity.
Defined.

(** The player stopped on the third slide at the end of the muted
    presentation. *)
Definition ended_on_last : state :=
  State 2 false true 0 true None 8600 4000 false None [].

Definition muted_presentation : list (Z * Event) :=
  [(0, Call ToggleMute); (0, Call Play);
   (4000, Tick); (4300, Advance 0);
   (8300, Tick); (8600, Advance 0);
   (12600, Tick); (12900, Advance 0)]%Z.

Lemma current_slide_witness :
  (0 <= currentSlide ended_on_last < slides_length three_slides)%Z
  /\ render three_slides ended_on_last <> Null.
Proof.
  apply (current_slide_exists three_slides muted_presentation ended_on_last).
  - discriminate.
  - vm_compute. reflexivity.
Defined.

Lemma progress_witness :
  (0 <= slideProgress ended_on_last /\ slideProgress ended_on_last <= 1)%Q.
Proof.
  apply (progress_is_a_fraction three_slides muted_presentation ended_on_last).
  - simpl. lia.
  - vm_compute. reflexivity.
Defined.

Lemma controls_witness :
  showControls ended_on_last = true /\ controlsTimerRef ended_on_last = false.
Proof.
  apply (controls_visible_when_not_playing three_slides muted_presentation
           ended_on_last).
  - vm_compute. reflexivity.
  - reflexivity.
Defined.

(** The narration of the first slide has ended and its timeout is
    pending. *)
Definition first_ended : state :=
  State 0 true false 1 true None 0 3000 true None [0%Z].

Lemma pending_witness :
  exists l,
    pending (State 2 true false 0 true (Some SpeechTick) 1700 3000 true (Some 2%Z) [0%Z])
    = pending first_ended ++ l.
Proof.
  apply (pending_timeouts_survive three_slides 1700 (Call (GoToSlide 2)) first_ended).
  - intros n. discriminate.
  - vm_compute. reflexivity.
Defined.

Lemma arrow_keys_witness :
  step three_slides 100 (Key ArrowLeft) narrating_first = Some narrating_first
  /\ step three_slides 100 (Key ArrowRight) ended_on_last = Some ended_on_last.
Proof.
  split.
  - apply (arrow_keys_stop_at_the_ends three_slides 100 narrating_first).
    reflexivity.
  - apply (arrow_keys_stop_at_the_ends three_slides 100 ended_on_last).
    reflexivity.
Defined.

End PlayerInstances.

Section OtherInstances.

Import Assembler.

Lemma one_assistant_message_witness :
  Chat.shown (lit "2") [Chat.Build_Message (lit "1") Chat.user (lit "Hi")]
             [delta_line (lit "Hel"); delta_line (lit "lo")]
  = match emitted (assemble [delta_line (lit "Hel"); delta_line (lit "lo")]) with
    | [] => [Chat.Build_Message (lit "1") Chat.user (lit "Hi")]
    | _ :: _ =>
        [Chat.Build_Message (lit "1") Chat.user (lit "Hi")]
        ++ [Chat.Build_Message (lit "2") Chat.assistant
              (content (assemble [delta_line (lit "Hel"); delta_line (lit "lo")]))]
    end.
Proof.
  apply (one_assistant_message_per_answer (lit "2")
           [Chat.Build_Message (lit "1") Chat.user (lit "Hi")]
           [delta_line (lit "Hel"); delta_line (lit "lo")]).
  repeat constructor. discriminate.
Defined.

Lemma error_message_witness :
  Request.handleVideoAction_failure
    (Slides.error_response 500 (lit "LOVABLE_API_KEY is not configured"))
  = Some (Request.Error (lit "LOVABLE_API_KEY is not configured")).
Proof.
  apply (error_message_reaches_the_toast 500 (lit "LOVABLE_API_KEY is not configured")).
  right. reflexivity.
Defined.

Lemma host_labels_witness :
  Audio.clean (script true [(false, lit " Welcome back."); (true, lit " #1 topic today")])
  = trim (script false [(false, lit " Welcome back."); (true, lit " #1 topic today")]).
Proof.
  apply (host_labels_are_not_spoken
           [(false, lit " Welcome back."); (true, lit " #1 topic today")]).
  repeat constructor.
Defined.

End OtherInstances.
